(** * Validation toolkit: checks, runners and the stdout reporter

    A shallow embedding of [src/index.ts].  JavaScript numbers are IEEE 754
    binary64 values, modelled by the primitive floats of the Standard
    Library; promises are modelled by their settlement (instant and
    outcome) on the logical clock of the event loop. *)

From Stdlib Require Import Floats ZArith Ascii DecimalString DecimalNat.
From stdpp Require Import list strings.

Local Open Scope string_scope.
Local Set Warnings "-register-all".

(** ** Runtime values *)

(** The values a check can receive as [unknown].  A character of a
    [VString] stands for one code unit, so [String.length] is [.length].
    [VError] is an instance of [Error] (or of a subclass) with its
    [message]; [VObject] is any other object, with its own properties. *)
Inductive JsValue : Type :=
| VUndefined
| VNull
| VBoolean (b : bool)
| VNumber (x : float)
| VBigInt (z : Z)
| VString (s : string)
| VSymbol (description : string)
| VFunction (name : string)
| VError (message : string)
| VObject (props : list (string * JsValue)).

(** The [typeof] operator. *)
Definition typeof (value : JsValue) : string :=
  match value with
  | VUndefined => "undefined"
  | VNull => "object"
  | VBoolean _ => "boolean"
  | VNumber _ => "number"
  | VBigInt _ => "bigint"
  | VString _ => "string"
  | VSymbol _ => "symbol"
  | VFunction _ => "function"
  | VError _ => "object"
  | VObject _ => "object"
  end.

(** [e instanceof Error], giving access to [e.message]. *)
Definition instanceofError (e : JsValue) : option string :=
  match e with
  | VError message => Some message
  | _ => None
  end.

(** Narrowing of an [unknown] after a [typeof] test. *)
Definition asNumber (value : JsValue) : option float :=
  match value with
  | VNumber x => Some x
  | _ => None
  end.

Definition asString (value : JsValue) : option string :=
  match value with
  | VString s => Some s
  | _ => None
  end.

(** Relational operators on numbers: IEEE 754 comparisons, false as soon
    as one operand is NaN. *)
Definition js_ge (x y : float) : bool := PrimFloat.leb y x.
Definition js_le (x y : float) : bool := PrimFloat.leb x y.

(** The number whose value is a length or an index. *)
Definition number_of_nat (n : nat) : float :=
  PrimFloat.of_uint63 (Uint63.of_Z (Z.of_nat n)).

(** [Number(value)] for [value : number | null]. *)
Definition Number (value : option float) : float :=
  match value with
  | None => 0%float
  | Some x => x
  end.

(** Template-literal conversion of an array index: its decimal numeral. *)
Definition index_toString (index : nat) : string :=
  NilEmpty.string_of_uint (Nat.to_uint index).

(** Template-literal conversion of a [string | null]. *)
Definition nullable_toString (s : option string) : string :=
  match s with
  | None => "null"
  | Some s => s
  end.

(** ** The host *)

(** Logical time of the event loop, counted from the call of a predicate. *)
Definition Instant : Type := nat.

(** What the code takes from its runtime:
    - the template-literal conversion of an arbitrary number;
    - the instant at which a timer armed by [setTimeout(_, delay)] at
      instant 0 and then released by [unref()] runs its callback, if it
      ever does: such a timer does not keep the process running, so it
      never fires in a process that has nothing else to wait for;
    - the order of settlement inside an instant: whether, of the promises
      of an array that settle at the same instant, the one at a given
      index settles before the ones that follow it in the array. *)
Class Host : Type := {
  Number_toString : float -> string;
  setTimeout_fires : float -> option Instant;
  settles_first : Instant -> nat -> bool
}.

(** ** Validation results *)

Record ValidationResult : Type := {
  isValid : bool;
  message : option string
}.

Definition SyncValidator : Type := JsValue -> ValidationResult.

Inductive TargetType : Type := TString | TNumber.

Definition targetType_name (targetType : TargetType) : string :=
  match targetType with
  | TString => "string"
  | TNumber => "number"
  end.

(** ** Synchronous checks *)

Definition checkType (targetType : TargetType) : SyncValidator :=
  fun value =>
    if String.eqb (typeof value) (targetType_name targetType) then
      {| isValid := true; message := None |}
    else
      {| isValid := false;
         message := Some ("Value is not a " +:+ targetType_name targetType) |}.

Definition checkNumberValue `{Host} (min max : float) : SyncValidator :=
  fun value =>
    match asNumber value with
    | None => {| isValid := false; message := Some "Value is not a number" |}
    | Some value =>
        let isValid := js_ge value min && js_le value max in
        {| isValid := isValid;
           message :=
             if isValid then None
             else Some ("Value should be between " +:+ Number_toString min
                        +:+ " and " +:+ Number_toString max) |}
    end.

Definition checkStringLength `{Host} (min max : float) : SyncValidator :=
  fun value =>
    match asString value with
    | None => {| isValid := false; message := Some "Value is not a string" |}
    | Some value =>
        let stringLength := number_of_nat (String.length value) in
        let isValid := js_ge stringLength min && js_le stringLength max in
        {| isValid := isValid;
           message :=
             if isValid then None
             else Some ("Length should be between " +:+ Number_toString min
                        +:+ " and " +:+ Number_toString max) |}
    end.

Definition syncValidate (value : JsValue) (validators : list SyncValidator)
  : list ValidationResult :=
  List.map (fun validator => validator value) validators.

(** ** Promises *)

(** A promise settles at most once: it is fulfilled with a value or
    rejected with a reason. *)
Inductive Outcome (A : Type) : Type :=
| Fulfilled (value : A)
| Rejected (reason : JsValue).
Arguments Fulfilled {A} value.
Arguments Rejected {A} reason.

(** A promise is described by its settlement: [Pending] never settles,
    [Settles t o] settles at instant [t] with outcome [o]. *)
Inductive Promise (A : Type) : Type :=
| Pending
| Settles (at_ : Instant) (outcome : Outcome A).
Arguments Pending {A}.
Arguments Settles {A} at_ outcome.

(** A call either returns or throws. *)
Inductive Completion (A : Type) : Type :=
| Returns (result : A)
| Throws (exception : JsValue).
Arguments Returns {A} result.
Arguments Throws {A} exception.

(** An async validator is called like any function: the call returns a
    promise, or throws when the validator is not an async function. *)
Definition AsyncValidator : Type :=
  option float -> Completion (Promise ValidationResult).

(** What calling an async function gives: it never throws, it returns
    the promise of its body. *)
Definition async_call {A B} (body : A -> Promise B) : A -> Completion (Promise B) :=
  fun x => Returns (body x).

(** Whether a promise at [index] that settles at [t] does so before a
    promise later in the array that settles at [u]. *)
Definition settled_before `{Host} (index : nat) (t u : Instant) : bool :=
  (t <? u)%nat || ((t =? u)%nat && settles_first t index).

(** Of the promise at [index] and of one later in the array, the one
    that settles first. *)
Definition first_settled `{Host} {A} (index : nat) (p q : Promise A)
  : Promise A :=
  match p, q with
  | Pending, _ => q
  | _, Pending => p
  | Settles t _, Settles u _ => if settled_before index t u then p else q
  end.

Fixpoint Promise_race_from `{Host} {A} (index : nat)
    (promises : list (Promise A)) : Promise A :=
  match promises with
  | [] => Pending
  | p :: rest => first_settled index p (Promise_race_from (S index) rest)
  end.

(** [Promise.race]. *)
Definition Promise_race `{Host} {A} (promises : list (Promise A))
  : Promise A :=
  Promise_race_from 0 promises.

(** [Promise.all] of the promise at [index] and of the [Promise.all] of
    the promises that follow it: rejected with the first rejection,
    fulfilled once both are. *)
Definition all_cons `{Host} {A} (index : nat) (p : Promise A)
    (rest : Promise (list A)) : Promise (list A) :=
  match p, rest with
  | Settles t (Rejected e), Settles u (Rejected e') =>
      if settled_before index t u
      then Settles t (Rejected e) else Settles u (Rejected e')
  | Settles t (Rejected e), _ => Settles t (Rejected e)
  | _, Settles u (Rejected e') => Settles u (Rejected e')
  | Settles t (Fulfilled v), Settles u (Fulfilled vs) =>
      Settles (Nat.max t u) (Fulfilled (v :: vs))
  | _, _ => Pending
  end.

Fixpoint Promise_all_from `{Host} {A} (index : nat)
    (promises : list (Promise A)) : Promise (list A) :=
  match promises with
  | [] => Settles 0 (Fulfilled [])
  | p :: rest => all_cons index p (Promise_all_from (S index) rest)
  end.

(** [Promise.all]. *)
Definition Promise_all `{Host} {A} (promises : list (Promise A))
  : Promise (list A) :=
  Promise_all_from 0 promises.

(** [Array.prototype.map] with a callback that may throw: the first
    exception ends the iteration. *)
Fixpoint Array_map {A B} (f : A -> Completion B) (array : list A)
  : Completion (list B) :=
  match array with
  | [] => Returns []
  | x :: rest =>
      match f x with
      | Throws e => Throws e
      | Returns y =>
          match Array_map f rest with
          | Throws e => Throws e
          | Returns ys => Returns (y :: ys)
          end
      end
  end.

(** The body [try { await e; return k } catch (e) { return handler e }] of
    an async function, where evaluating [e] itself may throw. *)
Definition try_await {A B} (awaited : Completion (Promise A))
    (k : A -> B) (handler : JsValue -> B) : Promise B :=
  match awaited with
  | Throws e => Settles 0 (Fulfilled (handler e))
  | Returns Pending => Pending
  | Returns (Settles t (Fulfilled v)) => Settles t (Fulfilled (k v))
  | Returns (Settles t (Rejected e)) => Settles t (Fulfilled (handler e))
  end.

(** ** The asynchronous check *)

Record CheckAsyncArgumentsType : Type := {
  callback : float -> Completion (Promise unit);
  timeout : option float
}.

(** The [timer] variable: [null], or the handle of the armed timer, which
    holds the instant at which the timer fires, if it does. *)
Definition Timer : Type := option (option Instant).

(** The executor of [timeoutPromise] runs at once: when a timeout is
    given it arms the timer and releases it with [unref()]; the promise
    is rejected when the timer fires, and stays pending if it never does. *)
Definition timeoutPromise `{Host} (timeout : option float)
  : Promise unit * Timer :=
  match timeout with
  | Some delay =>
      let fires := setTimeout_fires delay in
      (match fires with
       | Some t => Settles t (Rejected (VError "Timeout"))
       | None => Pending
       end,
       Some fires)
  | None => (Pending, None)
  end.

(** The [catch] clause. *)
Definition checkAsync_catch (e : JsValue) : ValidationResult :=
  {| isValid := false; message := instanceofError e |}.

(** The predicate: the promise it returns, and the instant at which its
    [finally] clause calls [clearTimeout], if it does. *)
Definition checkAsync_run `{Host} (args : CheckAsyncArgumentsType)
    (value : option float) : Promise ValidationResult * option Instant :=
  let '(timeoutPromise, timer) := timeoutPromise (timeout args) in
  let result :=
    try_await
      (match callback args (Number value) with
       | Returns called => Returns (Promise_race [called; timeoutPromise])
       | Throws e => Throws e
       end)
      (fun _ => {| isValid := true; message := None |})
      checkAsync_catch in
  let cleared :=
    match result, timer with
    | Settles t _, Some _ => Some t
    | _, _ => None
    end in
  (result, cleared).

Definition checkAsync `{Host} (args : CheckAsyncArgumentsType)
  : option float -> Promise ValidationResult :=
  fun value => fst (checkAsync_run args value).

(** ** Runners *)

(** An exception thrown while the validators are called rejects the
    promise of [asyncValidate] before anything is awaited. *)
Definition asyncValidate `{Host} (value : option float)
    (validators : list AsyncValidator) : Promise (list ValidationResult) :=
  match Array_map (fun validator : AsyncValidator => validator value)
          validators with
  | Returns promises => Promise_all promises
  | Throws e => Settles 0 (Rejected e)
  end.

(** ** The reporter *)

(** The line terminator. *)
Definition LF : string := String "010"%char "".

(** Standard output: the text written so far. *)
Definition Stdout : Type := string.

(** [console.log] of a string writes it, followed by a line terminator. *)
Definition console_log (text : string) (out : Stdout) : Stdout :=
  out +:+ text +:+ LF.

(** [Array.prototype.forEach] with an effect on a state. *)
Fixpoint forEach_from {A St} (f : A -> nat -> St -> St) (index : nat)
    (array : list A) (s : St) : St :=
  match array with
  | [] => s
  | x :: rest => forEach_from f (S index) rest (f x index s)
  end.

Definition forEach {A St} (f : A -> nat -> St -> St) (array : list A)
    (s : St) : St :=
  forEach_from f 0 array s.

Module StdoutReporter.

Record t : Type := new { result : list ValidationResult }.

Definition pickInvalid (this : t) : list ValidationResult :=
  List.filter (fun res => negb (isValid res)) (result this).

Definition pickValid (this : t) : list ValidationResult :=
  List.filter (fun res => isValid res) (result this).

Definition report (this : t) (out : Stdout) : Stdout :=
  forEach
    (fun res index =>
       console_log
         ("[#" +:+ index_toString index +:+ "][ "
          +:+ (if isValid res then "valid" else "invalid")
          +:+ " ] | " +:+ nullable_toString (message res)))
    (result this) out.

(** The method [isValid], declared last: from here on the name is the
    method's inside this module. *)
Definition isValid (this : t) : bool :=
  forallb (fun res => isValid res) (result this).

End StdoutReporter.

(** ** Vocabulary of the properties *)

(** [picked] is the selection of the elements of [batch] that satisfy
    [P], in the order of [batch]: a subsequence of [batch] whose elements
    satisfy [P] and that contains every such subsequence. *)
Definition selection {A} (P : A -> Prop) (picked batch : list A) : Prop :=
  picked `sublist_of` batch
  /\ Forall P picked
  /\ forall other, other `sublist_of` batch -> Forall P other ->
       other `sublist_of` picked.

(** The format of a report line in the words of the specification:
    "[#{index}][ valid|invalid ] | {message}", an absent message being
    rendered as "null". *)
Definition reportLine (index : nat) (res : ValidationResult) : string :=
  "[#" +:+ index_toString index +:+ "][ "
  +:+ (if isValid res then "valid" else "invalid")
  +:+ " ] | "
  +:+ (match message res with Some text => text | None => "null" end).

(** The value a promise is fulfilled with, if it is fulfilled. *)
Definition fulfilment {A} (p : Promise A) : option A :=
  match p with
  | Settles _ (Fulfilled v) => Some v
  | _ => None
  end.

(** The value a call resolves to: the fulfilment of the promise it
    returns. *)
Definition resolution {A} (called : Completion (Promise A)) : option A :=
  match called with
  | Returns p => fulfilment p
  | Throws _ => None
  end.

(** Whether a text holds a line terminator. *)
Fixpoint has_line_break (text : string) : bool :=
  match text with
  | EmptyString => false
  | String c rest => Ascii.eqb c "010"%char || has_line_break rest
  end.

(** The lines of a text: each ends at a line terminator, the last one at
    the end of the text if characters follow the last terminator.
    [current] holds the characters of the line being read. *)
Fixpoint lines_from (current text : string) : list string :=
  match text with
  | EmptyString =>
      match current with
      | EmptyString => []
      | _ => [current]
      end
  | String c rest =>
      if Ascii.eqb c "010"%char then current :: lines_from "" rest
      else lines_from (current +:+ String c "") rest
  end.

Definition lines (text : string) : list string := lines_from "" text.

(** The text of some lines, each followed by a line terminator. *)
Fixpoint unlines (ls : list string) : string :=
  match ls with
  | [] => ""
  | l :: rest => l +:+ LF +:+ unlines rest
  end.

(** The instant at which a call settles: at once when it throws, never
    when the promise it returns stays pending. *)
Definition settlesAt {A} (called : Completion (Promise A)) : option Instant :=
  match called with
  | Throws _ => Some 0
  | Returns Pending => None
  | Returns (Settles t _) => Some t
  end.

(** The reason with which a call fails, by throwing or by rejecting. *)
Definition failure {A} (called : Completion (Promise A)) : option JsValue :=
  match called with
  | Throws e => Some e
  | Returns (Settles _ (Rejected e)) => Some e
  | Returns _ => None
  end.

(** The invariant stated for validation results. *)
Definition validIffNoMessage (res : ValidationResult) : Prop :=
  isValid res = true <-> message res = None.

(** ** A concrete host: Node.js *)

Module Node.

Definition digits (z : Z) : string :=
  NilEmpty.string_of_uint (N.to_uint (Z.to_N z)).

Definition zeros (n : Z) : string :=
  String.concat "" (replicate (Z.to_nat n) "0").

Definition pos_part (z : Z) : Z := Z.max z 0.

(** The integer [s] for which [s * 10^q] is nearest to [m * 2^e] among
    the decimals that round to it, if there is one.  The rounding
    interval is counted in units of [2^(e-2)]; its ends belong to it
    when [m] is even. *)
Definition shortest_at (m : positive) (e q : Z) : option Z :=
  let M := Z.pos m in
  let boundary := (M =? 2 ^ 52)%Z && (-1074 <? e)%Z in
  let inclusive := Z.even M in
  let N := (2 ^ pos_part (e - 2) * 10 ^ pos_part (- q))%Z in
  let D := (10 ^ pos_part q * 2 ^ pos_part (2 - e))%Z in
  let lo := ((4 * M - (if boundary then 1 else 2)) * N)%Z in
  let mid := (4 * M * N)%Z in
  let hi := ((4 * M + 2) * N)%Z in
  let s_min :=
    (if (lo mod D =? 0) then lo / D + (if inclusive then 0 else 1)
     else lo / D + 1)%Z in
  let s_max :=
    (if (hi mod D =? 0) && negb inclusive then hi / D - 1 else hi / D)%Z in
  if (s_min <=? s_max)%Z && (1 <=? s_max)%Z then
    let s0 := (mid / D)%Z in
    let d0 := (mid - s0 * D)%Z in
    let d1 := ((s0 + 1) * D - mid)%Z in
    let nearest :=
      if (d0 <? d1)%Z then s0
      else if (d1 <? d0)%Z then (s0 + 1)%Z
      else if Z.even s0 then s0 else (s0 + 1)%Z in
    Some (Z.min s_max (Z.max s_min nearest))
  else None.

(** The largest exponent [q] that has such an [s] gives the fewest
    digits; the exact decimal expansion ends the search. *)
Fixpoint shortest (fuel : nat) (m : positive) (e q : Z) : Z * Z :=
  match shortest_at m e q with
  | Some s => (s, q)
  | None =>
      match fuel with
      | O => (Z.pos m * 2 ^ pos_part e * 5 ^ pos_part (- e),
              - pos_part (- e))%Z
      | S fuel => shortest fuel m e (q - 1)
      end
  end.

(** The digits of [s] with the decimal point or the exponent placed. *)
Definition render (s q : Z) : string :=
  let ds := digits s in
  let k := Z.of_nat (String.length ds) in
  let n := (q + k)%Z in
  if (-5 <=? n)%Z && (n <=? 21)%Z then
    if (k <=? n)%Z then ds +:+ zeros (n - k)
    else if (0 <? n)%Z then
      String.substring 0 (Z.to_nat n) ds +:+ "."
      +:+ String.substring (Z.to_nat n) (Z.to_nat (k - n)) ds
    else "0." +:+ zeros (- n) +:+ ds
  else
    let exponent :=
      (if (0 <=? n - 1)%Z then "+" else "-") +:+ digits (Z.abs (n - 1)) in
    if (k =? 1)%Z then ds +:+ "e" +:+ exponent
    else String.substring 0 1 ds +:+ "."
         +:+ String.substring 1 (Z.to_nat (k - 1)) ds +:+ "e" +:+ exponent.

(** [Number::toString] in radix 10. *)
Definition Number_toString (x : float) : string :=
  match Prim2SF x with
  | S754_nan => "NaN"
  | S754_zero _ => "0"
  | S754_infinity false => "Infinity"
  | S754_infinity true => "-Infinity"
  | S754_finite sign m e =>
      let '(s, q) := shortest 1500 m e 310 in
      (if sign then "-" else "") +:+ render s q
  end.

(** The integer part of a positive number. *)
Definition trunc (x : float) : nat :=
  match Prim2SF x with
  | S754_finite false m e =>
      Z.to_nat (if (0 <=? e)%Z then Z.pos m * 2 ^ e else Z.pos m / 2 ^ (- e))
  | _ => 0
  end.

(** A delay below 1, above 2^31 - 1 or NaN is taken as 1; other delays
    are truncated to whole milliseconds.  One instant is one
    millisecond. *)
Definition setTimeout_fires (delay : float) : Instant :=
  if js_ge delay 1 && js_le delay 2147483647 then trunc delay else 1.

(** A process that other work keeps running: every timer fires.  Of two
    promises that settle in the same millisecond the later one of the
    array settles first, as the timer of [checkAsync] does, which is
    armed before the callback is called. *)
Definition host : Host :=
  Build_Host Number_toString
    (fun delay => Some (setTimeout_fires delay))
    (fun _ _ => false).

(** A process with nothing else to wait for: a released timer never
    fires. *)
Definition idle : Host :=
  Build_Host Number_toString (fun _ => None) (fun _ _ => false).

(** A callback that resolves after [ms] milliseconds, and one that
    rejects with [reason] after [ms] milliseconds. *)
Definition resolvesAfter (ms : Instant) : float -> Completion (Promise unit) :=
  fun _ => Returns (Settles ms (Fulfilled tt)).

Definition rejectsAfter (ms : Instant) (reason : JsValue)
  : float -> Completion (Promise unit) :=
  fun _ => Returns (Settles ms (Rejected reason)).

End Node.

(** * Properties *)

(** ** Runtime values *)

Lemma asNumber_typeof (value : JsValue) :
  typeof value = "number" <-> exists x, value = VNumber x.
Proof.
  split.
  - destruct value; simpl; try discriminate. intros _. eauto.
  - intros [x ->]. reflexivity.
Qed.

Lemma asNumber_None (value : JsValue) :
  asNumber value = None <-> typeof value <> "number".
Proof.
  destruct value; simpl; split; try congruence; try discriminate.
Qed.

Lemma asString_None (value : JsValue) :
  asString value = None <-> typeof value <> "string".
Proof.
  destruct value; simpl; split; try congruence; try discriminate.
Qed.

(** No number is below NaN and NaN is below no number. *)
Lemma leb_nan_r (x : float) : PrimFloat.leb x nan = false.
Proof.
  rewrite leb_spec. unfold SFleb, SFcompare.
  destruct (Prim2SF x); reflexivity.
Qed.

Lemma leb_nan_l (x : float) : PrimFloat.leb nan x = false.
Proof.
  rewrite leb_spec. reflexivity.
Qed.

(** A number that is not NaN is below itself. *)
Lemma SFleb_refl (f : spec_float) : f <> S754_nan -> SFleb f f = true.
Proof.
  intros Hnan. unfold SFleb, SFcompare.
  destruct f as [s|[]| |[] m e]; try reflexivity; try congruence.
  - now rewrite Z.compare_refl, Pos.compare_cont_refl.
  - now rewrite Z.compare_refl, Pos.compare_cont_refl.
Qed.

Lemma SFleb_not_nan (f g : spec_float) :
  SFleb f g = true -> f <> S754_nan /\ g <> S754_nan.
Proof.
  unfold SFleb, SFcompare. destruct f, g; try discriminate; now split.
Qed.

Lemma leb_refl_of_leb (x y : float) :
  PrimFloat.leb x y = true ->
  PrimFloat.leb x x = true /\ PrimFloat.leb y y = true.
Proof.
  rewrite !leb_spec. intros Hle.
  apply SFleb_not_nan in Hle as [Hx Hy].
  split; now apply SFleb_refl.
Qed.

(** ** Examples of the specification, on Node.js *)

Example Number_toString_examples :
  map Node.Number_toString
      [0.5; 100; -2.5; 1e21; 72057594037927936; 9.5367431640625e-7;
       0.0000152587890625; 0; nan; infinity; neg_infinity]%float
  = ["0.5"; "100"; "-2.5"; "1e+21"; "72057594037927940"; "9.5367431640625e-7";
     "0.0000152587890625"; "0"; "NaN"; "Infinity"; "-Infinity"].
Proof. vm_compute. reflexivity. Qed.

Example setTimeout_fires_examples :
  map Node.setTimeout_fires [1000; 10; 2.5; 0; -3; nan; 4294967296]%float
  = [1000; 10; 2; 1; 1; 1; 1].
Proof. vm_compute. reflexivity. Qed.

Example checkType_number_ok :
  checkType TNumber (VNumber 5%float) = {| isValid := true; message := None |}.
Proof. reflexivity. Qed.

Example checkType_null_fails :
  checkType TString VNull
  = {| isValid := false; message := Some "Value is not a string" |}.
Proof. reflexivity. Qed.

Example checkNumberValue_bounds_inclusive :
  map (fun x => isValid (checkNumberValue (H := Node.host) 1 10 (VNumber x)))
      [0.5; 1; 5.5; 10; 11]%float
  = [false; true; true; true; false].
Proof. vm_compute. reflexivity. Qed.

Example checkNumberValue_out_of_range :
  checkNumberValue (H := Node.host) 1.5 1e21 (VNumber 0.25)
  = {| isValid := false;
       message := Some "Value should be between 1.5 and 1e+21" |}.
Proof. vm_compute. reflexivity. Qed.

Example checkStringLength_ok :
  checkStringLength (H := Node.host) 2 5 (VString "abc")
  = {| isValid := true; message := None |}.
Proof. vm_compute. reflexivity. Qed.

(** ** Synchronous checks *)

Section SyncChecks.

Context {host : Host}.

Lemma checkType_true (targetType : TargetType) (value : JsValue) :
  typeof value = targetType_name targetType ->
  checkType targetType value = {| isValid := true; message := None |}.
Proof.
  intros Heq. unfold checkType.
  rewrite (proj2 (String.eqb_eq _ _) Heq). reflexivity.
Qed.

Lemma checkType_false (targetType : TargetType) (value : JsValue) :
  typeof value <> targetType_name targetType ->
  checkType targetType value
  = {| isValid := false;
       message := Some ("Value is not a " +:+ targetType_name targetType) |}.
Proof.
  intros Hne. unfold checkType.
  rewrite (proj2 (String.eqb_neq _ _) Hne). reflexivity.
Qed.

(** C5: [checkType] is valid exactly when [typeof value] is the target
    type; a failure carries "Value is not a {targetType}"; a value whose
    type is neither "string" nor "number" fails for both targets. *)
Theorem checkType_spec (targetType : TargetType) (value : JsValue) :
  isValid (checkType targetType value)
  = String.eqb (typeof value) (targetType_name targetType)
  /\ (isValid (checkType targetType value) = false ->
      message (checkType targetType value)
      = Some ("Value is not a " +:+ targetType_name targetType))
  /\ (typeof value <> "string" -> typeof value <> "number" ->
      isValid (checkType targetType value) = false).
Proof.
  split; [|split].
  - unfold checkType. now destruct (String.eqb _ _).
  - unfold checkType. destruct (String.eqb _ _); simpl; [discriminate|done].
  - intros Hs Hn. rewrite checkType_false; [done|].
    destruct targetType; assumption.
Qed.

Lemma checkNumberValue_number (min max x : float) :
  checkNumberValue min max (VNumber x)
  = if PrimFloat.leb min x && PrimFloat.leb x max
    then {| isValid := true; message := None |}
    else {| isValid := false;
            message := Some ("Value should be between "
                             +:+ Number_toString min
                             +:+ " and " +:+ Number_toString max) |}.
Proof.
  unfold checkNumberValue, js_ge, js_le. simpl.
  now destruct (PrimFloat.leb min x && PrimFloat.leb x max).
Qed.

(** C4: a value that is not a number fails with "Value is not a number",
    whatever the bounds; a number [x] is valid exactly when
    [min <= x <= max], and fails with the range message otherwise. *)
Theorem checkNumberValue_spec (min max : float) (value : JsValue) :
  (typeof value <> "number" ->
   checkNumberValue min max value
   = {| isValid := false; message := Some "Value is not a number" |})
  /\ (typeof value = "number" ->
      exists x, value = VNumber x
        /\ (isValid (checkNumberValue min max value) = true <->
            PrimFloat.leb min x = true /\ PrimFloat.leb x max = true)
        /\ (isValid (checkNumberValue min max value) = false ->
            message (checkNumberValue min max value)
            = Some ("Value should be between " +:+ Number_toString min
                    +:+ " and " +:+ Number_toString max))).
Proof.
  split.
  - intros Hty. apply asNumber_None in Hty.
    unfold checkNumberValue. now rewrite Hty.
  - intros Hty. apply asNumber_typeof in Hty as [x ->].
    exists x. split; [reflexivity|].
    rewrite checkNumberValue_number.
    destruct (PrimFloat.leb min x), (PrimFloat.leb x max); simpl;
      (split; [split; [try discriminate; tauto | intros []; congruence]
              | try discriminate; reflexivity]).
Qed.

(** X6: both bounds are inclusive: when [min <= max], [min] and [max] are
    valid values themselves. *)
Lemma checkNumberValue_bounds_valid (min max : float) :
  PrimFloat.leb min max = true ->
  checkNumberValue min max (VNumber min)
  = {| isValid := true; message := None |}
  /\ checkNumberValue min max (VNumber max)
     = {| isValid := true; message := None |}.
Proof.
  intros Hle. destruct (leb_refl_of_leb _ _ Hle) as [Hmin Hmax].
  rewrite !checkNumberValue_number, Hle, Hmin, Hmax. now split.
Qed.

(** C10: NaN has type "number", so it passes the type test of
    [checkNumberValue] and fails with the range message. *)
Theorem checkNumberValue_NaN (min max : float) :
  typeof (VNumber nan) = "number"
  /\ checkNumberValue min max (VNumber nan)
     = {| isValid := false;
          message := Some ("Value should be between " +:+ Number_toString min
                           +:+ " and " +:+ Number_toString max) |}.
Proof.
  split; [reflexivity|].
  rewrite checkNumberValue_number, leb_nan_r. reflexivity.
Qed.

Lemma checkStringLength_string (min max : float) (s : string) :
  checkStringLength min max (VString s)
  = if js_ge (number_of_nat (String.length s)) min
       && js_le (number_of_nat (String.length s)) max
    then {| isValid := true; message := None |}
    else {| isValid := false;
            message := Some ("Length should be between "
                             +:+ Number_toString min
                             +:+ " and " +:+ Number_toString max) |}.
Proof.
  unfold checkStringLength. simpl.
  now destruct (js_ge _ min && js_le _ max).
Qed.

End SyncChecks.

(** ** The synchronous runner *)

(** C7: [syncValidate] returns one result per validator, the result at
    index [i] being that of the validator at index [i]. *)
Theorem syncValidate_spec (value : JsValue) (validators : list SyncValidator) :
  length (syncValidate value validators) = length validators
  /\ forall i : nat,
       syncValidate value validators !! i
       = (fun validator : SyncValidator => validator value) <$> validators !! i.
Proof.
  unfold syncValidate. split.
  - apply length_map.
  - intros i. apply list_lookup_fmap.
Qed.

(** ** The reporter *)

Lemma filter_selection {A} (f : A -> bool) (batch : list A) :
  selection (fun x => f x = true) (List.filter f batch) batch.
Proof.
  split; [|split].
  - induction batch as [|x batch IH]; simpl; [constructor|].
    destruct (f x); now constructor.
  - apply Forall_forall. intros x Hx.
    apply list_elem_of_In, filter_In in Hx. tauto.
  - intros other Hsub. induction Hsub as [|x k l Hsub IH|x k l Hsub IH];
      intros HP; simpl.
    + constructor.
    + inversion HP as [|? ? Hx Hk]; subst. rewrite Hx.
      constructor. now apply IH.
    + destruct (f x); [constructor|]; now apply IH.
Qed.

(** A selection is determined by the batch and the property. *)
Lemma selection_unique {A} (P : A -> Prop) (picked picked' batch : list A) :
  selection P picked batch -> selection P picked' batch -> picked = picked'.
Proof.
  intros (Hs & HP & Hmax) (Hs' & HP' & Hmax').
  apply (anti_symm sublist); auto.
Qed.

(** C8: [isValid()] holds exactly when every result of the batch is valid,
    so it holds of the empty batch; [pickInvalid()] and [pickValid()] are
    the selections of the invalid and of the valid results, in the order
    of the batch. *)
Theorem StdoutReporter_spec (this : StdoutReporter.t) :
  (StdoutReporter.isValid this = true
   <-> Forall (fun res => isValid res = true) (StdoutReporter.result this))
  /\ StdoutReporter.isValid (StdoutReporter.new []) = true
  /\ selection (fun res => isValid res = false)
       (StdoutReporter.pickInvalid this) (StdoutReporter.result this)
  /\ selection (fun res => isValid res = true)
       (StdoutReporter.pickValid this) (StdoutReporter.result this).
Proof.
  destruct this as [batch]. simpl. repeat split.
  - unfold StdoutReporter.isValid. simpl. intros H.
    apply Forall_forall. intros res Hin.
    apply list_elem_of_In in Hin.
    now apply (proj1 (forallb_forall _ _) H).
  - unfold StdoutReporter.isValid. simpl. intros H.
    apply forallb_forall. intros res Hin.
    apply list_elem_of_In in Hin.
    now apply (proj1 (Forall_forall _ _) H).
  - apply (filter_selection (fun res => negb (isValid res))).
  - eapply Forall_impl; [apply (filter_selection (fun res => negb (isValid res)))|].
    intros res. simpl. now destruct (isValid res).
  - intros other Hsub HP.
    apply (filter_selection (fun res => negb (isValid res))); [done|].
    eapply Forall_impl; [exact HP|]. intros res. simpl. now intros ->.
  - apply (filter_selection isValid).
  - apply (filter_selection isValid).
  - apply (filter_selection isValid).
Qed.

Lemma append_cons (c : ascii) (s t : string) :
  String c s +:+ t = String c (s +:+ t).
Proof. reflexivity. Qed.

Lemma append_nil_l (t : string) : "" +:+ t = t.
Proof. reflexivity. Qed.

Lemma append_nil_r (s : string) : s +:+ "" = s.
Proof.
  induction s as [|c s IH]; [reflexivity|]. now rewrite append_cons, IH.
Qed.

Lemma append_assoc (s t u : string) : (s +:+ t) +:+ u = s +:+ t +:+ u.
Proof.
  induction s as [|c s IH]; [reflexivity|]. now rewrite !append_cons, IH.
Qed.

Lemma forEach_from_console_log {A} (line : nat -> A -> string) (index : nat)
    (array : list A) (out : Stdout) :
  forEach_from (fun x i => console_log (line i x)) index array out
  = out +:+ unlines (imap (fun j => line (index + j)) array).
Proof.
  revert index out. induction array as [|x array IH]; intros index out; simpl.
  - now rewrite append_nil_r.
  - rewrite IH. unfold console_log. rewrite !append_assoc.
    rewrite Nat.add_0_r. do 4 f_equal.
    apply imap_ext. intros j y _. simpl. f_equal. lia.
Qed.

(** The text of a report. *)
Lemma report_text (this : StdoutReporter.t) (out : Stdout) :
  StdoutReporter.report this out
  = out +:+ unlines (imap reportLine (StdoutReporter.result this)).
Proof.
  unfold StdoutReporter.report, forEach.
  rewrite (forEach_from_console_log
             (fun index res =>
                "[#" +:+ index_toString index +:+ "][ "
                +:+ (if isValid res then "valid" else "invalid")
                +:+ " ] | " +:+ nullable_toString (message res))).
  reflexivity.
Qed.

Lemma has_line_break_append (s t : string) :
  has_line_break (s +:+ t) = has_line_break s || has_line_break t.
Proof.
  induction s as [|c s IH]; [reflexivity|].
  rewrite append_cons. simpl. now rewrite IH, orb_assoc.
Qed.

Lemma string_of_uint_no_line_break (d : Decimal.uint) :
  has_line_break (NilEmpty.string_of_uint d) = false.
Proof. induction d; simpl; auto. Qed.

(** A report line breaks only where the message does. *)
Lemma reportLine_line_break (index : nat) (res : ValidationResult) :
  has_line_break (reportLine index res)
  = has_line_break (nullable_toString (message res)).
Proof.
  unfold reportLine.
  fold (nullable_toString (message res)).
  rewrite !has_line_break_append. unfold index_toString.
  rewrite string_of_uint_no_line_break.
  now destruct (isValid res).
Qed.

(** Reading back a line that holds no line terminator. *)
Lemma lines_from_line (current line rest : string) :
  has_line_break line = false ->
  lines_from current (line +:+ LF +:+ rest)
  = (current +:+ line) :: lines_from "" rest.
Proof.
  revert current. induction line as [|c line IH]; intros current Hline.
  - rewrite append_nil_l, append_nil_r. reflexivity.
  - simpl in Hline. apply orb_false_iff in Hline as [Hc Hline].
    rewrite append_cons. simpl. rewrite Hc, IH by exact Hline.
    now rewrite append_assoc, append_cons, append_nil_l.
Qed.

Lemma lines_unlines (ls : list string) :
  Forall (fun l => has_line_break l = false) ls -> lines (unlines ls) = ls.
Proof.
  unfold lines. induction 1 as [|l ls Hl _ IH]; simpl; [reflexivity|].
  now rewrite lines_from_line, IH.
Qed.

Lemma report_lines (this : StdoutReporter.t) :
  Forall (fun res => has_line_break (nullable_toString (message res)) = false)
    (StdoutReporter.result this) ->
  lines (StdoutReporter.report this "")
  = imap reportLine (StdoutReporter.result this).
Proof.
  intros Hclean. rewrite report_text. simpl. apply lines_unlines.
  apply Forall_forall. intros l Hin.
  apply elem_of_lookup_imap in Hin as (i & res & -> & Hres).
  rewrite reportLine_line_break.
  apply (proj1 (Forall_forall _ _) Hclean res).
  eapply list_elem_of_lookup_2, Hres.
Qed.

(** C9, as the code has it: [report()] calls [console.log] once per
    result, in the order of the batch, and so appends to the output, for
    the result at position [index],
    "[#{index}][ valid ] | {message}" or "[#{index}][ invalid ] | {message}",
    with "null" for an absent message, followed by a line terminator.
    When no message of the batch holds a line terminator, the report has
    exactly one line per result, the line at position [index] being the
    one of the result at that position. *)
Theorem report_spec (this : StdoutReporter.t) (out : Stdout) :
  StdoutReporter.report this out
  = out +:+ unlines (imap reportLine (StdoutReporter.result this))
  /\ (Forall (fun res =>
                has_line_break (nullable_toString (message res)) = false)
         (StdoutReporter.result this) ->
      length (lines (StdoutReporter.report this ""))
      = length (StdoutReporter.result this)
      /\ forall index : nat,
           lines (StdoutReporter.report this "") !! index
           = reportLine index <$> StdoutReporter.result this !! index).
Proof.
  split; [apply report_text|].
  intros Hclean. rewrite (report_lines this Hclean). split.
  - apply length_imap.
  - intros index. apply list_lookup_imap.
Qed.

(** C9 fails on a message that holds a line terminator: the report of
    one result then has two lines. *)
Lemma report_message_with_line_break :
  lines (StdoutReporter.report
           (StdoutReporter.new
              [ {| isValid := false;
                   message := Some ("first" +:+ LF +:+ "second") |} ]) "")
  = ["[#0][ invalid ] | first"; "second"]
  /\ length (lines (StdoutReporter.report
                      (StdoutReporter.new
                         [ {| isValid := false;
                              message := Some ("first" +:+ LF +:+ "second") |} ])
                      ""))
     <> length [ {| isValid := false;
                    message := Some ("first" +:+ LF +:+ "second") |} ].
Proof. split; [reflexivity|discriminate]. Qed.

Example report_two_lines :
  lines (StdoutReporter.report
           (StdoutReporter.new
              [ {| isValid := true; message := None |};
                {| isValid := false; message := Some "bad" |} ]) "")
  = ["[#0][ valid ] | null"; "[#1][ invalid ] | bad"].
Proof. reflexivity. Qed.

Example pick_two :
  let first := {| isValid := true; message := None |} in
  let second := {| isValid := false; message := Some "bad" |} in
  let reporter := StdoutReporter.new [first; second] in
  StdoutReporter.isValid reporter = false
  /\ StdoutReporter.pickInvalid reporter = [second]
  /\ StdoutReporter.pickValid reporter = [first].
Proof. repeat split. Qed.

(** ** Promises *)

Section Promises.

Context {host : Host}.

Lemma settled_before_le (index : nat) (t u : Instant) :
  settled_before index t u = true -> t <= u.
Proof.
  unfold settled_before.
  destruct (Nat.ltb_spec t u), (Nat.eqb_spec t u); simpl; try discriminate; lia.
Qed.

Lemma settled_before_ge (index : nat) (t u : Instant) :
  settled_before index t u = false -> u <= t.
Proof.
  unfold settled_before.
  destruct (Nat.ltb_spec t u), (Nat.eqb_spec t u); simpl; try discriminate; lia.
Qed.

Lemma settled_before_lt (index : nat) (t u : Instant) :
  t < u -> settled_before index t u = true.
Proof.
  intros Hlt. unfold settled_before.
  now rewrite (proj2 (Nat.ltb_lt _ _) Hlt).
Qed.

Lemma settled_before_gt (index : nat) (t u : Instant) :
  u < t -> settled_before index t u = false.
Proof.
  intros Hlt. unfold settled_before.
  rewrite (proj2 (Nat.ltb_ge _ _)) by lia.
  rewrite (proj2 (Nat.eqb_neq _ _)) by lia. reflexivity.
Qed.

Lemma first_settled_pending_r {A} (index : nat) (p : Promise A) :
  first_settled index p Pending = p.
Proof. now destruct p. Qed.

Lemma Promise_race_pair {A} (p q : Promise A) :
  Promise_race [p; q] = first_settled 0 p q.
Proof.
  unfold Promise_race. simpl. now rewrite first_settled_pending_r.
Qed.

(** [Promise.all] of promises that are all fulfilled is fulfilled with
    their values, in the order of the promises, when the last of them
    settles. *)
Lemma Promise_all_from_fulfilled {A} (index : nat)
    (promises : list (Promise A)) :
  Forall (fun p => is_Some (fulfilment p)) promises ->
  exists (t : Instant) (values : list A),
    Promise_all_from index promises = Settles t (Fulfilled values)
    /\ Forall2 (fun p v => exists u, p = Settles u (Fulfilled v) /\ u <= t)
         promises values.
Proof.
  intros Hall. revert index.
  induction Hall as [|p promises [v Hv] _ IH]; intros index.
  - exists 0, []. split; [reflexivity|constructor].
  - destruct (IH (S index)) as (t & values & Hrest & Hvalues).
    destruct p as [|u [v'|e]]; simpl in Hv; try discriminate.
    injection Hv as ->.
    exists (Nat.max u t), (v :: values). split.
    + simpl. now rewrite Hrest.
    + constructor.
      * exists u. split; [reflexivity|lia].
      * eapply Forall2_impl; [exact Hvalues|].
        intros q w (u' & -> & Hle). exists u'. split; [reflexivity|lia].
Qed.

(** [Promise.all] is rejected as soon as one of the promises is. *)
Lemma Promise_all_from_rejected {A} (index : nat)
    (promises : list (Promise A)) (t : Instant) (e : JsValue) :
  Settles t (Rejected e) ∈ promises ->
  exists (u : Instant) (e' : JsValue),
    Promise_all_from index promises = Settles u (Rejected e') /\ u <= t.
Proof.
  revert index. induction promises as [|p promises IH]; intros index Hin.
  - inversion Hin.
  - apply elem_of_cons in Hin as [<-|Hin]; simpl.
    + destruct (Promise_all_from (S index) promises) as [|u [vs|e']];
        simpl; eauto.
      destruct (settled_before index t u) eqn:Htie; eauto.
      apply settled_before_ge in Htie. eauto.
    + destruct (IH (S index) Hin) as (u & e' & -> & Hle).
      destruct p as [|u' [v|e'']]; simpl; eauto.
      destruct (settled_before index u' u) eqn:Htie; eauto.
      apply settled_before_le in Htie. exists u', e''. split; [done|lia].
Qed.

Lemma Promise_all_from_not_rejected {A} (index : nat)
    (promises : list (Promise A)) :
  (forall u e, Promise_all_from index promises <> Settles u (Rejected e)) ->
  forall t e, Settles t (Rejected e) ∉ promises.
Proof.
  intros Hnot t e Hin.
  destruct (Promise_all_from_rejected index promises t e Hin)
    as (u & e' & Heq & _).
  exact (Hnot u e' Heq).
Qed.

(** The rejection of [Promise.all] is a first rejection of a promise. *)
Lemma Promise_all_from_rejected_inv {A} (index : nat)
    (promises : list (Promise A)) (u : Instant) (e : JsValue) :
  Promise_all_from index promises = Settles u (Rejected e) ->
  Settles u (Rejected e) ∈ promises
  /\ forall t e', Settles t (Rejected e') ∈ promises -> u <= t.
Proof.
  revert index u e. induction promises as [|p promises IH]; intros index u e.
  - discriminate.
  - simpl.
    destruct (Promise_all_from (S index) promises) as [|w [vs|e2]] eqn:Hrest.
    + destruct p as [|t [v|e1]]; simpl; try discriminate.
      intros [= <- <-]. split; [left|].
      intros t' e' Hin. apply elem_of_cons in Hin as [[= <- <-]|Hin]; [lia|].
      exfalso. revert Hin. apply (Promise_all_from_not_rejected (S index)).
      intros; rewrite Hrest; discriminate.
    + destruct p as [|t [v|e1]]; simpl; try discriminate.
      intros [= <- <-]. split; [left|].
      intros t' e' Hin. apply elem_of_cons in Hin as [[= <- <-]|Hin]; [lia|].
      exfalso. revert Hin. apply (Promise_all_from_not_rejected (S index)).
      intros; rewrite Hrest; discriminate.
    + destruct (IH (S index) w e2 Hrest) as [Hin Hfirst].
      destruct p as [|t [v|e1]]; simpl.
      * intros [= <- <-]. split; [now right|].
        intros t' e' Hin'. apply elem_of_cons in Hin' as [[=]|Hin']; eauto.
      * intros [= <- <-]. split; [now right|].
        intros t' e' Hin'. apply elem_of_cons in Hin' as [[=]|Hin']; eauto.
      * destruct (settled_before index t w) eqn:Htie; intros [= <- <-].
        -- apply settled_before_le in Htie.
           split; [left|]. intros t' e' Hin'.
           apply elem_of_cons in Hin' as [[= <- <-]|Hin']; [lia|].
           specialize (Hfirst t' e' Hin'). lia.
        -- apply settled_before_ge in Htie.
           split; [now right|]. intros t' e' Hin'.
           apply elem_of_cons in Hin' as [[= <- <-]|Hin']; [lia|eauto].
Qed.

(** [Promise.all] is fulfilled only when every promise is, and at the
    instant the last of them settles. *)
Lemma Promise_all_from_fulfilled_inv {A} (index : nat)
    (promises : list (Promise A)) (t : Instant) (values : list A) :
  Promise_all_from index promises = Settles t (Fulfilled values) ->
  Forall2 (fun p v => exists u, p = Settles u (Fulfilled v) /\ u <= t)
    promises values
  /\ (promises = [] \/ exists v, Settles t (Fulfilled v) ∈ promises).
Proof.
  revert index t values.
  induction promises as [|p promises IH]; intros index t values.
  - simpl. intros [= <- <-]. split; [constructor|now left].
  - simpl.
    destruct (Promise_all_from (S index) promises) as [|w [vs|e']] eqn:Hrest;
      destruct p as [|u [v|e]]; simpl; try discriminate.
    + intros [= <- <-].
      destruct (IH (S index) w vs Hrest) as [Hall Hlast]. split.
      * constructor; [exists u; split; [reflexivity|lia]|].
        eapply Forall2_impl; [exact Hall|].
        intros q x (u' & -> & Hle). exists u'. split; [reflexivity|lia].
      * right. destruct (Nat.max_spec u w) as [[Hlt ->]|[_ ->]].
        -- destruct Hlast as [->|[v' Hin]].
           ++ simpl in Hrest. injection Hrest as <- <-. lia.
           ++ exists v'. now right.
        -- exists v. left.
    + destruct (settled_before index u w); discriminate.
Qed.

(** [Promise.all] stays pending exactly when a promise stays pending and
    none is rejected. *)
Lemma Promise_all_from_pending {A} (index : nat)
    (promises : list (Promise A)) :
  Promise_all_from index promises = Pending
  <-> Pending ∈ promises /\ forall t e, Settles t (Rejected e) ∉ promises.
Proof.
  split.
  - intros Hpending. split.
    + revert index Hpending.
      induction promises as [|p promises IH]; intros index Hpending;
        [discriminate|].
      simpl in Hpending.
      destruct p as [|t [v|e1]]; [left| |].
      * right. apply (IH (S index)).
        destruct (Promise_all_from (S index) promises) as [|w [vs|e2]];
          try discriminate. reflexivity.
      * destruct (Promise_all_from (S index) promises) as [|w [vs|e2]];
          simpl in Hpending; try discriminate.
        destruct (settled_before index t w); discriminate.
    + apply (Promise_all_from_not_rejected index).
      intros; rewrite Hpending; discriminate.
  - intros [Hin Hnone].
    destruct (Promise_all_from index promises) as [|t [vs|e]] eqn:Hall;
      [reflexivity| |].
    + apply Promise_all_from_fulfilled_inv in Hall as [Hall _].
      apply list_elem_of_lookup in Hin as [i Hi].
      destruct (Forall2_lookup_l _ _ _ _ _ Hall Hi) as (v & _ & u & [=] & _).
    + apply Promise_all_from_rejected_inv in Hall as [Hrej _].
      now apply Hnone in Hrej.
Qed.

(** The calls of [Array.prototype.map] all return exactly when the
    iteration does. *)
Lemma Array_map_returns {A B} (f : A -> Completion B) (array : list A)
    (results : list B) :
  Array_map f array = Returns results
  <-> Forall2 (fun x y => f x = Returns y) array results.
Proof.
  revert results. induction array as [|x array IH]; intros results; simpl.
  - split.
    + intros [= <-]. constructor.
    + intros Hall. inversion Hall. reflexivity.
  - destruct (f x) as [y|e] eqn:Hx.
    + destruct (Array_map f array) as [ys|e].
      * split.
        -- intros [= <-]. constructor; [exact Hx|]. now apply IH.
        -- intros Hall. inversion Hall as [|? y' ? ys' Hy Hrest]; subst.
           rewrite Hx in Hy. injection Hy as <-.
           apply IH in Hrest. now injection Hrest as <-.
      * split; [discriminate|].
        intros Hall. inversion Hall as [|? y' ? ys' Hy Hrest]; subst.
        apply IH in Hrest. discriminate.
    + split; [discriminate|].
      intros Hall. inversion Hall as [|? y' ? ys' Hy Hrest]; subst.
      rewrite Hx in Hy. discriminate.
Qed.

(** The exception of [Array.prototype.map] is that of the first call
    that throws. *)
Lemma Array_map_throws {A B} (f : A -> Completion B) (array : list A)
    (e : JsValue) :
  Array_map f array = Throws e
  <-> exists before x after,
        array = (before ++ x :: after)%list
        /\ Forall (fun x' => exists y, f x' = Returns y) before
        /\ f x = Throws e.
Proof.
  induction array as [|x array IH]; simpl.
  - split; [discriminate|]. intros (before & x & after & Heq & _).
    now destruct before.
  - destruct (f x) as [y|e'] eqn:Hx.
    + destruct (Array_map f array) as [ys|e''].
      * split; [discriminate|].
        intros ([|x' before] & x0 & after & Heq & Hbefore & Hthrow);
          simpl in Heq; injection Heq as -> ->; [congruence|].
        inversion Hbefore; subst.
        assert (Hex : exists before0 x1 after0,
                   (before ++ x0 :: after)%list
                   = (before0 ++ x1 :: after0)%list
                   /\ Forall (fun x' => exists y, f x' = Returns y) before0
                   /\ f x1 = Throws e) by eauto 7.
        apply IH in Hex. discriminate.
      * split.
        -- intros [= ->]. destruct (proj1 IH eq_refl)
             as (before & x0 & after & -> & Hbefore & Hthrow).
           exists (x :: before), x0, after. split; [reflexivity|].
           split; [|exact Hthrow]. constructor; eauto.
        -- intros ([|x' before] & x0 & after & Heq & Hbefore & Hthrow);
             simpl in Heq; injection Heq as -> ->; [congruence|].
           inversion Hbefore; subst.
           assert (Hex : exists before0 x1 after0,
                      (before ++ x0 :: after)%list
                      = (before0 ++ x1 :: after0)%list
                      /\ Forall (fun x' => exists y, f x' = Returns y) before0
                      /\ f x1 = Throws e) by eauto 7.
           apply IH in Hex. congruence.
    + split.
      * intros [= ->]. exists [], x, array. repeat split; [constructor|exact Hx].
      * intros ([|x' before] & x0 & after & Heq & Hbefore & Hthrow);
          simpl in Heq; injection Heq as -> ->; [congruence|].
        inversion Hbefore as [|? ? [y Hy] ?]; subst. congruence.
Qed.

(** ** The asynchronous runner *)

(** C6: when every validator resolves, at whatever instant,
    [asyncValidate] resolves, once the last of them has, to a list with
    one result per validator, the result at index [i] being the one the
    validator at index [i] resolved to. *)
Theorem asyncValidate_spec (value : option float)
    (validators : list AsyncValidator) :
  Forall (fun validator : AsyncValidator =>
            is_Some (resolution (validator value))) validators ->
  exists (t : Instant) (results : list ValidationResult),
    asyncValidate value validators = Settles t (Fulfilled results)
    /\ length results = length validators
    /\ forall i : nat,
         Some <$> results !! i
         = (fun validator : AsyncValidator => resolution (validator value))
             <$> validators !! i.
Proof.
  intros Hall.
  assert (Hcalls : exists promises,
             Forall2 (fun (validator : AsyncValidator) p =>
                        validator value = Returns p
                        /\ is_Some (fulfilment p)) validators promises).
  { induction Hall as [|validator validators [res Hres] _ [promises IH]].
    - exists []. constructor.
    - destruct (validator value) as [p|e] eqn:Hcall; [|discriminate].
      exists (p :: promises). constructor; [|exact IH].
      split; [exact Hcall|]. now exists res. }
  destruct Hcalls as [promises Hcalls].
  assert (Hmap : Array_map (fun validator : AsyncValidator => validator value)
                   validators = Returns promises).
  { apply Array_map_returns. eapply Forall2_impl; [exact Hcalls|].
    now intros validator p [Hcall _]. }
  destruct (Promise_all_from_fulfilled 0 promises)
    as (t & results & Heq & Hres).
  { eapply Forall2_Forall_r; [exact Hcalls|].
    apply Forall_forall. now intros validator _ p [_ Hp]. }
  exists t, results. unfold asyncValidate. rewrite Hmap.
  split; [exact Heq|]. split.
  - rewrite <- (Forall2_length _ _ _ Hres). symmetry.
    exact (Forall2_length _ _ _ Hcalls).
  - intros i. rewrite (Forall2_lookup _ _ _) in Hres.
    rewrite (Forall2_lookup _ _ _) in Hcalls.
    specialize (Hres i). specialize (Hcalls i).
    destruct Hcalls as [validator p [Hcall _]|];
      inversion Hres as [? res (u & Hp & _)|]; subst; simpl; [|done].
    now rewrite Hcall.
Qed.

(** X12: a validator that rejects makes [asyncValidate] reject, no later
    than that validator does. *)
Lemma asyncValidate_rejects (value : option float)
    (validators : list AsyncValidator) (validator : AsyncValidator)
    (t : Instant) (e : JsValue) :
  validator ∈ validators ->
  validator value = Returns (Settles t (Rejected e)) ->
  exists (u : Instant) (e' : JsValue),
    asyncValidate value validators = Settles u (Rejected e') /\ u <= t.
Proof.
  intros Hin Hrej. unfold asyncValidate.
  destruct (Array_map _ validators) as [promises|e'] eqn:Hmap.
  - apply Promise_all_from_rejected with (e := e).
    apply Array_map_returns in Hmap.
    apply list_elem_of_lookup in Hin as [i Hi].
    destruct (Forall2_lookup_l _ _ _ _ _ Hmap Hi) as (p & Hp & Hcall).
    rewrite Hrej in Hcall. injection Hcall as <-.
    eapply list_elem_of_lookup_2, Hp.
  - exists 0, e'. split; [reflexivity|lia].
Qed.

End Promises.

Example asyncValidate_out_of_order :
  let first := {| isValid := false; message := Some "Timeout" |} in
  let second := {| isValid := true; message := None |} in
  asyncValidate (H := Node.host) (Some 5%float)
    [ (fun _ => Returns (Settles 20 (Fulfilled first)));
      (fun _ => Returns (Settles 10 (Fulfilled second))) ]
  = Settles 20 (Fulfilled [first; second]).
Proof. reflexivity. Qed.

(** ** The asynchronous check *)

Section AsyncCheck.

Context {host : Host}.

(** The promise that the timer rejects. *)
Lemma timeoutPromise_fires (delay : float) (fires : Instant) :
  setTimeout_fires delay = Some fires ->
  timeoutPromise (Some delay)
  = (Settles fires (Rejected (VError "Timeout")), Some (Some fires)).
Proof. intros Hfires. unfold timeoutPromise. now rewrite Hfires. Qed.

Lemma timeoutPromise_never (delay : float) :
  setTimeout_fires delay = None ->
  timeoutPromise (Some delay) = (Pending, Some None).
Proof. intros Hfires. unfold timeoutPromise. now rewrite Hfires. Qed.

(** The promise of [checkAsync], by cases on the call of the callback
    and on the timeout. *)
Lemma checkAsync_unfold (args : CheckAsyncArgumentsType)
    (value : option float) :
  checkAsync args value
  = try_await
      (match callback args (Number value) with
       | Returns called =>
           Returns (first_settled 0 called
                      (fst (timeoutPromise (timeout args))))
       | Throws e => Throws e
       end)
      (fun _ => {| isValid := true; message := None |})
      checkAsync_catch.
Proof.
  unfold checkAsync, checkAsync_run.
  destruct (timeoutPromise (timeout args)) as [p timer]. simpl.
  destruct (callback args (Number value)) as [called|e]; [|reflexivity].
  now rewrite Promise_race_pair.
Qed.

(** What the callback's promise is raced against. *)
Lemma timeoutPromise_cases (timeout : option float) :
  fst (timeoutPromise timeout) = Pending
  \/ exists delay fires,
       timeout = Some delay /\ setTimeout_fires delay = Some fires
       /\ fst (timeoutPromise timeout)
          = Settles fires (Rejected (VError "Timeout")).
Proof.
  destruct timeout as [delay|]; [|now left]. simpl.
  destruct (setTimeout_fires delay) as [fires|] eqn:Hfires; [|now left].
  right. now exists delay, fires.
Qed.

(** A settlement of the callback before the timer fires wins the race. *)
Lemma callback_settles_first (args : CheckAsyncArgumentsType) (t : Instant)
    (o : Outcome unit) :
  (forall delay fires,
      timeout args = Some delay -> setTimeout_fires delay = Some fires ->
      t < fires) ->
  first_settled 0 (Settles t o) (fst (timeoutPromise (timeout args)))
  = Settles t o.
Proof.
  intros Hfirst.
  destruct (timeoutPromise_cases (timeout args))
    as [->|(delay & fires & Hdelay & Hfires & ->)]; [reflexivity|].
  simpl. now rewrite settled_before_lt by eauto.
Qed.

(** The callback resolves before the timer fires: the result is valid. *)
Lemma checkAsync_callback_resolves (args : CheckAsyncArgumentsType)
    (value : option float) (t : Instant) :
  callback args (Number value) = Returns (Settles t (Fulfilled tt)) ->
  (forall delay fires,
      timeout args = Some delay -> setTimeout_fires delay = Some fires ->
      t < fires) ->
  checkAsync args value
  = Settles t (Fulfilled {| isValid := true; message := None |}).
Proof.
  intros Hcall Hfirst. rewrite checkAsync_unfold, Hcall.
  now rewrite callback_settles_first.
Qed.

(** C2: when the callback rejects before the timer, if any, fires, the
    predicate resolves, at that instant, to an invalid result; its
    message is the message of the reason when the reason is an [Error],
    and is absent otherwise. *)
Theorem checkAsync_callback_rejects (args : CheckAsyncArgumentsType)
    (value : option float) (t : Instant) (reason : JsValue) :
  callback args (Number value) = Returns (Settles t (Rejected reason)) ->
  (forall delay fires,
      timeout args = Some delay -> setTimeout_fires delay = Some fires ->
      t < fires) ->
  checkAsync args value
  = Settles t
      (Fulfilled
         {| isValid := false;
            message := match reason with
                       | VError description => Some description
                       | _ => None
                       end |}).
Proof.
  intros Hcall Hfirst. rewrite checkAsync_unfold, Hcall.
  rewrite callback_settles_first by exact Hfirst.
  now destruct reason.
Qed.

(** X13: a callback that throws is handled as one that rejects at once:
    the predicate resolves at instant 0 to an invalid result, with the
    message of the exception when it is an [Error]. *)
Lemma checkAsync_callback_throws (args : CheckAsyncArgumentsType)
    (value : option float) (reason : JsValue) :
  callback args (Number value) = Throws reason ->
  checkAsync args value
  = Settles 0
      (Fulfilled {| isValid := false; message := instanceofError reason |}).
Proof.
  intros Hcall. now rewrite checkAsync_unfold, Hcall.
Qed.

(** C3: with a timeout, when the timer fires before the call of the
    callback settles, or when that call never settles, the predicate
    resolves, at the instant the timer fires, to an invalid result with
    message "Timeout". *)
Theorem checkAsync_timeout (args : CheckAsyncArgumentsType)
    (value : option float) (delay : float) (fires : Instant) :
  timeout args = Some delay ->
  setTimeout_fires delay = Some fires ->
  (forall t, settlesAt (callback args (Number value)) = Some t ->
             fires < t) ->
  checkAsync args value
  = Settles fires
      (Fulfilled {| isValid := false; message := Some "Timeout" |}).
Proof.
  intros Htimeout Hfires Hfirst.
  rewrite checkAsync_unfold, Htimeout, (timeoutPromise_fires _ _ Hfires).
  simpl.
  destruct (callback args (Number value)) as [[|t o]|e]; simpl in *.
  - reflexivity.
  - specialize (Hfirst t eq_refl).
    now rewrite settled_before_gt by lia.
  - specialize (Hfirst 0 eq_refl). lia.
Qed.

(** The predicate never rejects. *)
Lemma checkAsync_never_rejects (args : CheckAsyncArgumentsType)
    (value : option float) (t : Instant) (e : JsValue) :
  checkAsync args value <> Settles t (Rejected e).
Proof.
  rewrite checkAsync_unfold. unfold try_await.
  destruct (callback args (Number value)) as [called|e']; [|discriminate].
  destruct (first_settled _ _ _) as [|u [v|e']]; discriminate.
Qed.

(** With a timeout whose timer fires, the predicate settles no later
    than the timer fires, and its [finally] clause clears the timer at
    that instant; without a timeout no timer is armed. *)
Lemma checkAsync_timer_cleared (args : CheckAsyncArgumentsType)
    (value : option float) :
  match timeout args with
  | Some delay =>
      forall fires, setTimeout_fires delay = Some fires ->
      exists (t : Instant) (res : ValidationResult),
        checkAsync_run args value = (Settles t (Fulfilled res), Some t)
        /\ t <= fires
  | None => snd (checkAsync_run args value) = None
  end.
Proof.
  unfold checkAsync_run.
  destruct (timeout args) as [delay|].
  - intros fires Hfires. rewrite (timeoutPromise_fires _ _ Hfires).
    unfold Promise_race.
    destruct (callback args (Number value)) as [[|t [[]|e]]|e]; simpl.
    + eauto.
    + destruct (settled_before 0 t fires) eqn:Htie; simpl;
        [apply settled_before_le in Htie|]; eexists _, _;
        split; try reflexivity; lia.
    + destruct (settled_before 0 t fires) eqn:Htie; simpl;
        [apply settled_before_le in Htie|]; eexists _, _;
        split; try reflexivity; lia.
    + eexists _, _; split; [reflexivity|lia].
  - simpl. destruct (callback args (Number value)) as [[|t [[]|e]]|e];
      reflexivity.
Qed.

(** What a [checkAsync] predicate resolves to comes from one of the
    three exits of its body. *)
Lemma checkAsync_resolves_inv (args : CheckAsyncArgumentsType)
    (value : option float) (t : Instant) (res : ValidationResult) :
  checkAsync args value = Settles t (Fulfilled res) ->
  res = {| isValid := true; message := None |}
  \/ res = {| isValid := false; message := Some "Timeout" |}
  \/ exists reason,
       failure (callback args (Number value)) = Some reason
       /\ res = {| isValid := false; message := instanceofError reason |}.
Proof.
  rewrite checkAsync_unfold. unfold try_await.
  destruct (callback args (Number value)) as [called|e].
  - destruct (timeoutPromise_cases (timeout args))
      as [->|(delay & fires & _ & _ & ->)];
      destruct called as [|u [[]|e]]; simpl;
      try destruct (settled_before 0 u fires);
      intros [= <- <-]; eauto.
  - intros [= <- <-]. eauto.
Qed.

(** C1, as the code has it: the three synchronous checks return a valid
    result exactly when they return no message; what a [checkAsync]
    predicate resolves to has no message when it is valid, and is
    invalid without a message only when the callback threw or rejected
    a value that is not an [Error]; [pickValid()] and [pickInvalid()]
    return results of the batch only. *)
Theorem ValidationResult_invariant :
  (forall targetType value,
      validIffNoMessage (checkType targetType value))
  /\ (forall min max value,
        validIffNoMessage (checkNumberValue min max value))
  /\ (forall min max value,
        validIffNoMessage (checkStringLength min max value))
  /\ (forall args value t res,
        checkAsync args value = Settles t (Fulfilled res) ->
        (isValid res = true -> message res = None)
        /\ (isValid res = false -> message res = None ->
            exists reason,
              failure (callback args (Number value)) = Some reason
              /\ instanceofError reason = None))
  /\ (forall this res,
        res ∈ StdoutReporter.pickValid this
        \/ res ∈ StdoutReporter.pickInvalid this ->
        res ∈ StdoutReporter.result this).
Proof.
  unfold validIffNoMessage. repeat apply conj.
  - intros targetType value. unfold checkType.
    now destruct (String.eqb _ _).
  - intros min max value. unfold checkNumberValue.
    destruct (asNumber value) as [x|]; simpl; [|done].
    now destruct (js_ge x min && js_le x max).
  - intros min max value. unfold checkStringLength.
    destruct (asString value) as [x|]; simpl; [|done].
    now destruct (js_ge _ min && js_le _ max).
  - intros args value t res Hres.
    apply checkAsync_resolves_inv in Hres
      as [->|[->|(reason & Hfail & ->)]]; simpl; split; try done.
    eauto.
  - intros this res [Hin|Hin];
      apply list_elem_of_In, filter_In in Hin as [Hin _];
      now apply list_elem_of_In.
Qed.

End AsyncCheck.

(** ** The checks on Node.js *)

Example checkAsync_resolves_in_time :
  checkAsync (H := Node.host)
    {| callback := Node.resolvesAfter 10; timeout := Some 1000%float |}
    (Some 5%float)
  = Settles 10 (Fulfilled {| isValid := true; message := None |}).
Proof. vm_compute. reflexivity. Qed.

Example checkAsync_times_out :
  checkAsync (H := Node.host)
    {| callback := Node.resolvesAfter 1000; timeout := Some 10%float |}
    (Some 5%float)
  = Settles 10 (Fulfilled {| isValid := false; message := Some "Timeout" |}).
Proof. vm_compute. reflexivity. Qed.

Example checkAsync_rejects_with_Error :
  checkAsync (H := Node.host)
    {| callback := Node.rejectsAfter 0 (VError "boom"); timeout := None |}
    (Some 5%float)
  = Settles 0 (Fulfilled {| isValid := false; message := Some "boom" |}).
Proof. vm_compute. reflexivity. Qed.

Example checkAsync_null_is_zero :
  checkAsync (H := Node.host)
    {| callback := fun x =>
         if PrimFloat.eqb x 0 then Throws (VError "zero")
         else Returns (Settles 1 (Fulfilled tt));
       timeout := None |}
    None
  = Settles 0 (Fulfilled {| isValid := false; message := Some "zero" |}).
Proof. vm_compute. reflexivity. Qed.

(** C1 fails on [checkAsync]: a callback that rejects with a value that
    is not an [Error], here the string "boom", gives a result that is
    invalid and has no message. *)
Lemma checkAsync_invalid_without_message :
  checkAsync (H := Node.host)
    {| callback := Node.rejectsAfter 3 (VString "boom"); timeout := None |}
    (Some 5%float)
  = Settles 3 (Fulfilled {| isValid := false; message := None |})
  /\ ~ validIffNoMessage {| isValid := false; message := None |}.
Proof.
  split; [reflexivity|].
  unfold validIffNoMessage. simpl. intros [_ H].
  specialize (H eq_refl). discriminate.
Qed.

(** ** Instances of the theorems *)

Lemma checkType_spec_witness :
  typeof (VBoolean true) <> "string"
  /\ typeof (VBoolean true) <> "number"
  /\ isValid (checkType TNumber (VBoolean true)) = false
  /\ message (checkType TNumber (VBoolean true))
     = Some "Value is not a number".
Proof.
  destruct (checkType_spec TNumber (VBoolean true)) as (_ & Hmessage & Hfails).
  assert (Hs : typeof (VBoolean true) <> "string") by discriminate.
  assert (Hn : typeof (VBoolean true) <> "number") by discriminate.
  split; [exact Hs|]. split; [exact Hn|]. split; [exact (Hfails Hs Hn)|].
  exact (Hmessage (Hfails Hs Hn)).
Defined.

Lemma checkNumberValue_spec_witness :
  typeof (VString "7") <> "number"
  /\ checkNumberValue (H := Node.host) 1 10 (VString "7")
     = {| isValid := false; message := Some "Value is not a number" |}.
Proof.
  assert (Hty : typeof (VString "7") <> "number") by discriminate.
  split; [exact Hty|].
  exact (proj1 (checkNumberValue_spec (host := Node.host) 1 10 (VString "7"))
               Hty).
Defined.

Lemma StdoutReporter_spec_witness :
  Forall (fun res => isValid res = true)
    [ {| isValid := true; message := None |} ]
  /\ StdoutReporter.isValid
       (StdoutReporter.new [ {| isValid := true; message := None |} ]) = true.
Proof.
  assert (Hall : Forall (fun res => isValid res = true)
                   [ {| isValid := true; message := None |} ])
    by (repeat constructor).
  split; [exact Hall|].
  exact (proj2 (proj1 (StdoutReporter_spec
                         (StdoutReporter.new
                            [ {| isValid := true; message := None |} ])))
               Hall).
Defined.

Lemma asyncValidate_spec_witness :
  let first := {| isValid := false; message := Some "Timeout" |} in
  let second := {| isValid := true; message := None |} in
  let validators : list AsyncValidator :=
    [ (fun _ => Returns (Settles 20 (Fulfilled first)));
      (fun _ => Returns (Settles 10 (Fulfilled second))) ] in
  Forall (fun validator : AsyncValidator =>
            is_Some (resolution (validator (Some 5%float)))) validators
  /\ exists (t : Instant) (results : list ValidationResult),
       asyncValidate (H := Node.host) (Some 5%float) validators
       = Settles t (Fulfilled results)
       /\ length results = 2
       /\ forall i : nat,
            Some <$> results !! i
            = (fun validator : AsyncValidator =>
                 resolution (validator (Some 5%float))) <$> validators !! i.
Proof.
  intros first second validators.
  assert (Hall : Forall (fun validator : AsyncValidator =>
                           is_Some (resolution (validator (Some 5%float))))
                   validators)
    by (repeat constructor; eexists; reflexivity).
  split; [exact Hall|].
  exact (asyncValidate_spec (host := Node.host) (Some 5%float) validators
           Hall).
Defined.

Lemma checkAsync_callback_rejects_witness :
  3 < Node.setTimeout_fires 1000
  /\ checkAsync (H := Node.host)
       {| callback := Node.rejectsAfter 3 (VError "boom");
          timeout := Some 1000%float |}
       (Some 5%float)
     = Settles 3 (Fulfilled {| isValid := false; message := Some "boom" |}).
Proof.
  assert (Hbefore : 3 < Node.setTimeout_fires 1000) by (vm_compute; lia).
  split; [exact Hbefore|].
  apply (checkAsync_callback_rejects (host := Node.host)
           {| callback := Node.rejectsAfter 3 (VError "boom");
              timeout := Some 1000%float |}
           (Some 5%float) 3 (VError "boom")).
  - reflexivity.
  - intros delay fires [= <-] [= <-]. exact Hbefore.
Defined.

Lemma checkAsync_timeout_witness :
  Node.setTimeout_fires 10 < 1000
  /\ checkAsync (H := Node.host)
       {| callback := Node.resolvesAfter 1000; timeout := Some 10%float |}
       (Some 5%float)
     = Settles (Node.setTimeout_fires 10)
         (Fulfilled {| isValid := false; message := Some "Timeout" |}).
Proof.
  assert (Hbefore : Node.setTimeout_fires 10 < 1000) by (vm_compute; lia).
  split; [exact Hbefore|].
  apply (checkAsync_timeout (host := Node.host)
           {| callback := Node.resolvesAfter 1000; timeout := Some 10%float |}
           (Some 5%float) 10%float (Node.setTimeout_fires 10)).
  - reflexivity.
  - reflexivity.
  - intros t [= <-]. exact Hbefore.
Defined.

Lemma ValidationResult_invariant_witness :
  checkAsync (H := Node.host)
    {| callback := Node.rejectsAfter 3 (VObject [("message", VString "boom")]);
       timeout := None |}
    None
  = Settles 3 (Fulfilled {| isValid := false; message := None |})
  /\ exists reason,
       failure (Node.rejectsAfter 3 (VObject [("message", VString "boom")])
                  (Number None)) = Some reason
       /\ instanceofError reason = None.
Proof.
  assert (Hres : checkAsync (H := Node.host)
                   {| callback :=
                        Node.rejectsAfter 3
                          (VObject [("message", VString "boom")]);
                      timeout := None |}
                   None
                 = Settles 3 (Fulfilled {| isValid := false; message := None |}))
    by reflexivity.
  split; [exact Hres|].
  destruct (ValidationResult_invariant (host := Node.host))
    as (_ & _ & _ & Hasync & _).
  exact (proj2 (Hasync _ _ _ _ Hres) eq_refl eq_refl).
Defined.

(** * Further properties of the code *)

(** ** Comparisons of numbers *)

(** The comparison of numbers is transitive. *)
Lemma SFleb_trans (f g h : spec_float) :
  SFleb f g = true -> SFleb g h = true -> SFleb f h = true.
Proof.
  unfold SFleb, SFcompare.
  destruct f as [sf|sf| |sf mf ef], g as [sg|sg| |sg mg eg],
           h as [sh|sh| |sh mh eh];
    try destruct sf; try destruct sg; try destruct sh;
    try discriminate; try reflexivity; intros Hfg Hgh.
  all: change (Pos.compare_cont Eq) with Pos.compare in *.
  all: destruct (Z.compare_spec ef eg), (Z.compare_spec eg eh);
    try discriminate;
    destruct (Z.compare_spec ef eh); try lia; try reflexivity; subst.
  all: destruct (Pos.compare_spec mf mg), (Pos.compare_spec mg mh);
    try discriminate;
    destruct (Pos.compare_spec mf mh); try lia; try reflexivity.
Qed.

Lemma leb_trans (x y z : float) :
  PrimFloat.leb x y = true -> PrimFloat.leb y z = true ->
  PrimFloat.leb x z = true.
Proof. rewrite !leb_spec. apply SFleb_trans. Qed.

(** The number of binary digits of a positive integer. *)
Lemma digits2_pos_iter_xO (m k : positive) :
  digits2_pos (Pos.iter xO m k) = (digits2_pos m + k)%positive.
Proof.
  induction k as [|k IH] using Pos.peano_ind.
  - simpl. lia.
  - rewrite Pos.iter_succ. simpl. rewrite IH. lia.
Qed.

Lemma digits2_pos_bounds (m : positive) :
  (2 ^ (Z.pos (digits2_pos m) - 1) <= Z.pos m < 2 ^ Z.pos (digits2_pos m))%Z.
Proof.
  induction m as [m IH|m IH|]; simpl digits2_pos.
  - rewrite Pos2Z.inj_succ, Z.pow_succ_r by lia.
    replace (Z.succ (Z.pos (digits2_pos m)) - 1)%Z
      with (Z.succ (Z.pos (digits2_pos m) - 1)) by lia.
    rewrite Z.pow_succ_r by lia. lia.
  - rewrite Pos2Z.inj_succ, Z.pow_succ_r by lia.
    replace (Z.succ (Z.pos (digits2_pos m)) - 1)%Z
      with (Z.succ (Z.pos (digits2_pos m) - 1)) by lia.
    rewrite Z.pow_succ_r by lia. lia.
  - simpl. lia.
Qed.

Lemma digits2_pos_small (m : positive) :
  (Z.pos m < 2 ^ 53)%Z -> (Z.pos (digits2_pos m) <= 53)%Z.
Proof.
  intros Hm. pose proof (digits2_pos_bounds m) as [Hlo _].
  destruct (Z.le_gt_cases (Z.pos (digits2_pos m)) 53) as [|Hgt]; [assumption|].
  assert (2 ^ 53 <= 2 ^ (Z.pos (digits2_pos m) - 1))%Z
    by (apply Z.pow_le_mono_r; lia).
  lia.
Qed.

(** A positive integer below 2^53 is a number: its digits, shifted to a
    mantissa of 53 bits, with the exponent that undoes the shift. *)
Lemma binary_round_small (m : positive) :
  (Z.pos (digits2_pos m) <= 53)%Z ->
  exists mz : positive,
    binary_round prec emax false m 0
    = S754_finite false mz (Z.pos (digits2_pos m) - 53)
    /\ Z.pos mz = (Z.pos m * 2 ^ (53 - Z.pos (digits2_pos m)))%Z.
Proof.
  intros Hd. unfold binary_round.
  replace (fexp prec emax (Z.pos (digits2_pos m) + 0))
    with (Z.pos (digits2_pos m) - 53)%Z
    by (unfold fexp, SpecFloat.emin, prec, emax; lia).
  assert (Hal : exists mz,
             shl_align m 0 (Z.pos (digits2_pos m) - 53)
             = (mz, (Z.pos (digits2_pos m) - 53)%Z)
             /\ digits2_pos mz = 53%positive
             /\ Z.pos mz = (Z.pos m * 2 ^ (53 - Z.pos (digits2_pos m)))%Z).
  { unfold shl_align.
    destruct (Z.pos (digits2_pos m) - 53 - 0)%Z as [|d|d] eqn:Hk; try lia.
    - exists m. split; [f_equal; lia|]. split; [lia|].
      replace (53 - Z.pos (digits2_pos m))%Z with 0%Z by lia. lia.
    - exists (Pos.iter xO m d). split; [reflexivity|].
      rewrite digits2_pos_iter_xO. split; [lia|].
      change (Pos.iter xO m d) with (shift_pos d m).
      rewrite shift_pos_correct, Z.pow_pos_fold.
      replace (53 - Z.pos (digits2_pos m))%Z with (Z.pos d) by lia. lia. }
  destruct Hal as (mz & -> & Hmz & Hvalue). exists mz. split; [|exact Hvalue].
  unfold binary_round_aux, shr_fexp. simpl Zdigits2. rewrite Hmz.
  replace (fexp prec emax (53 + (Z.pos (digits2_pos m) - 53))
           - (Z.pos (digits2_pos m) - 53))%Z with 0%Z
    by (unfold fexp, SpecFloat.emin, prec, emax; lia).
  simpl. rewrite Hmz.
  replace (fexp prec emax (53 + (Z.pos (digits2_pos m) - 53))
           - (Z.pos (digits2_pos m) - 53))%Z with 0%Z
    by (unfold fexp, SpecFloat.emin, prec, emax; lia).
  simpl.
  replace (Z.pos (digits2_pos m) - 53 <=? emax - prec)%Z with true;
    [reflexivity|].
  symmetry. apply Z.leb_le. unfold emax, prec. lia.
Qed.

(** On positive integers below 2^53 the comparison of numbers is the
    comparison of integers. *)
Lemma SFleb_small (a b : positive) :
  (Z.pos (digits2_pos a) <= 53)%Z -> (Z.pos (digits2_pos b) <= 53)%Z ->
  SFleb (binary_round prec emax false a 0) (binary_round prec emax false b 0)
  = (Z.pos a <=? Z.pos b)%Z.
Proof.
  intros Ha Hb.
  destruct (binary_round_small a Ha) as (ma & -> & Hva).
  destruct (binary_round_small b Hb) as (mb & -> & Hvb).
  pose proof (digits2_pos_bounds a) as Hba.
  pose proof (digits2_pos_bounds b) as Hbb.
  unfold SFleb, SFcompare.
  change (Pos.compare_cont Eq) with Pos.compare.
  destruct (Z.compare_spec (Z.pos (digits2_pos a) - 53)
                           (Z.pos (digits2_pos b) - 53)) as [Heq|Hlt|Hgt].
  - assert (Hd : digits2_pos a = digits2_pos b) by lia.
    rewrite Hd in Hva.
    assert (Hp : (0 < 2 ^ (53 - Z.pos (digits2_pos b)))%Z)
      by (apply Z.pow_pos_nonneg; lia).
    destruct (Pos.compare_spec ma mb) as [He|Hl|Hg];
      symmetry; [apply Z.leb_le|apply Z.leb_le|apply Z.leb_gt]; nia.
  - symmetry. apply Z.leb_le.
    assert (2 ^ Z.pos (digits2_pos a) <= 2 ^ (Z.pos (digits2_pos b) - 1))%Z
      by (apply Z.pow_le_mono_r; lia).
    lia.
  - symmetry. apply Z.leb_gt.
    assert (2 ^ Z.pos (digits2_pos b) <= 2 ^ (Z.pos (digits2_pos a) - 1))%Z
      by (apply Z.pow_le_mono_r; lia).
    lia.
Qed.

Lemma Prim2SF_number_of_nat (n : nat) :
  (Z.of_nat n < 2 ^ 53)%Z ->
  Prim2SF (number_of_nat n) = binary_normalize prec emax (Z.of_nat n) 0 false.
Proof.
  intros Hn. unfold number_of_nat. rewrite of_uint63_spec.
  rewrite Uint63.of_Z_spec, Z.mod_small; [reflexivity|].
  split; [lia|]. unfold Uint63Axioms.wB. simpl.
  eapply Z.lt_trans; [exact Hn|]. reflexivity.
Qed.

(** Lengths and other natural numbers below 2^53 compare as numbers the
    way they compare as integers. *)
Lemma leb_number_of_nat (a b : nat) :
  (Z.of_nat a < 2 ^ 53)%Z -> (Z.of_nat b < 2 ^ 53)%Z ->
  PrimFloat.leb (number_of_nat a) (number_of_nat b) = (a <=? b)%nat.
Proof.
  intros Ha Hb. rewrite leb_spec, !Prim2SF_number_of_nat by assumption.
  unfold binary_normalize.
  destruct (Z.of_nat a) as [|pa|pa] eqn:Hza, (Z.of_nat b) as [|pb|pb] eqn:Hzb;
    try lia.
  - destruct a, b; try discriminate. reflexivity.
  - destruct a; [|lia].
    destruct (binary_round_small pb) as (mb & -> & _);
      [now apply digits2_pos_small|reflexivity].
  - destruct b; [|lia].
    destruct (binary_round_small pa) as (ma & -> & _);
      [now apply digits2_pos_small|].
    destruct a; [discriminate|reflexivity].
  - rewrite SFleb_small by (apply digits2_pos_small; assumption).
    rewrite <- Hza, <- Hzb.
    destruct (Nat.leb_spec a b); [apply Z.leb_le|apply Z.leb_gt]; lia.
Qed.

(** ** Synchronous checks, continued *)

Section SyncChecksMore.

Context {host : Host}.

(** X1: [checkStringLength] fails with "Value is not a string" on a value
    that is not a string, whatever the bounds; a string is valid exactly
    when its length, as a number, is between [min] and [max], and fails
    with "Length should be between {min} and {max}" otherwise. *)
Theorem checkStringLength_spec (min max : float) (value : JsValue) :
  (typeof value <> "string" ->
   checkStringLength min max value
   = {| isValid := false; message := Some "Value is not a string" |})
  /\ (typeof value = "string" ->
      exists s, value = VString s
        /\ (isValid (checkStringLength min max value) = true <->
            PrimFloat.leb min (number_of_nat (String.length s)) = true
            /\ PrimFloat.leb (number_of_nat (String.length s)) max = true)
        /\ (isValid (checkStringLength min max value) = false ->
            message (checkStringLength min max value)
            = Some ("Length should be between " +:+ Number_toString min
                    +:+ " and " +:+ Number_toString max))).
Proof.
  split.
  - intros Hty. apply asString_None in Hty.
    unfold checkStringLength. now rewrite Hty.
  - intros Hty. destruct value; try discriminate Hty.
    exists s. split; [reflexivity|].
    rewrite checkStringLength_string. unfold js_ge, js_le.
    destruct (PrimFloat.leb min _), (PrimFloat.leb _ max); simpl;
      (split; [split; [try discriminate; tauto | intros []; congruence]
              | try discriminate; reflexivity]).
Qed.

(** X2: with whole bounds [lo] and [hi], [checkStringLength] accepts a
    string exactly when [lo <= length <= hi]; lengths and bounds are below
    2^53, where numbers hold integers exactly. *)
Theorem checkStringLength_whole_bounds (lo hi : nat) (s : string) :
  (Z.of_nat lo < 2 ^ 53)%Z -> (Z.of_nat hi < 2 ^ 53)%Z ->
  (Z.of_nat (String.length s) < 2 ^ 53)%Z ->
  isValid (checkStringLength (number_of_nat lo) (number_of_nat hi) (VString s))
  = ((lo <=? String.length s)%nat && (String.length s <=? hi)%nat).
Proof.
  intros Hlo Hhi Hlen. rewrite checkStringLength_string. unfold js_ge, js_le.
  rewrite !leb_number_of_nat by assumption.
  now destruct ((lo <=? String.length s)%nat && (String.length s <=? hi)%nat).
Qed.

(** X3: on whole numbers below 2^53 [checkNumberValue] is the comparison
    of integers: [n] is valid between [lo] and [hi] exactly when
    [lo <= n <= hi]. *)
Theorem checkNumberValue_whole_numbers (lo hi n : nat) :
  (Z.of_nat lo < 2 ^ 53)%Z -> (Z.of_nat hi < 2 ^ 53)%Z ->
  (Z.of_nat n < 2 ^ 53)%Z ->
  isValid (checkNumberValue (number_of_nat lo) (number_of_nat hi)
             (VNumber (number_of_nat n)))
  = ((lo <=? n)%nat && (n <=? hi)%nat).
Proof.
  intros Hlo Hhi Hn. rewrite checkNumberValue_number.
  rewrite !leb_number_of_nat by assumption.
  now destruct ((lo <=? n)%nat && (n <=? hi)%nat).
Qed.

(** X4: when [min <= max] does not hold, because [min] is above [max] or
    because one of them is NaN, [checkNumberValue] and [checkStringLength]
    accept no value at all. *)
Theorem empty_range_rejects (min max : float) (value : JsValue) :
  PrimFloat.leb min max = false ->
  isValid (checkNumberValue min max value) = false
  /\ isValid (checkStringLength min max value) = false.
Proof.
  intros Hempty.
  assert (Hno : forall x, PrimFloat.leb min x && PrimFloat.leb x max = false).
  { intros x.
    destruct (PrimFloat.leb min x) eqn:Hlo, (PrimFloat.leb x max) eqn:Hhi;
      try reflexivity.
    rewrite (leb_trans _ _ _ Hlo Hhi) in Hempty. discriminate. }
  split.
  - destruct value; try reflexivity.
    rewrite checkNumberValue_number, Hno. reflexivity.
  - destruct value; try reflexivity.
    rewrite checkStringLength_string. unfold js_ge, js_le.
    rewrite Hno. reflexivity.
Qed.

(** X5: a range check implies the type check: what [checkNumberValue]
    accepts, [checkType] accepts as a "number", and what [checkStringLength]
    accepts, [checkType] accepts as a "string". *)
Theorem range_check_implies_type_check (min max : float) (value : JsValue) :
  (isValid (checkNumberValue min max value) = true ->
   checkType TNumber value = {| isValid := true; message := None |})
  /\ (isValid (checkStringLength min max value) = true ->
      checkType TString value = {| isValid := true; message := None |}).
Proof.
  split; intros Hvalid; destruct value; try discriminate Hvalid; reflexivity.
Qed.

End SyncChecksMore.

(** ** The reporter, continued *)

Lemma filter_negb_partition {A} (f : A -> bool) (l : list A) :
  List.filter f l ++ List.filter (fun x => negb (f x)) l ≡ₚ l.
Proof.
  induction l as [|x l IH]; simpl; [reflexivity|].
  destruct (f x); simpl.
  - now constructor.
  - rewrite <- Permutation_middle. now constructor.
Qed.

(** X7: [pickValid()] and [pickInvalid()] split the batch: together they
    hold the results of the batch, each as often as the batch does, and no
    result is in both. *)
Theorem picks_partition (this : StdoutReporter.t) :
  StdoutReporter.pickValid this ++ StdoutReporter.pickInvalid this
    ≡ₚ StdoutReporter.result this
  /\ length (StdoutReporter.pickValid this)
     + length (StdoutReporter.pickInvalid this)
     = length (StdoutReporter.result this)
  /\ forall res, res ∈ StdoutReporter.pickValid this ->
       res ∉ StdoutReporter.pickInvalid this.
Proof.
  pose proof (filter_negb_partition isValid (StdoutReporter.result this))
    as Hperm.
  split; [exact Hperm|]. split.
  - rewrite <- (Permutation_length Hperm). symmetry. apply length_app.
  - intros res Hvalid Hinvalid.
    apply list_elem_of_In, filter_In in Hvalid as [_ Hvalid].
    apply list_elem_of_In, filter_In in Hinvalid as [_ Hinvalid].
    rewrite Hvalid in Hinvalid. discriminate.
Qed.

Lemma filter_all {A} (f : A -> bool) (l : list A) :
  forallb f l = true <-> List.filter f l = l.
Proof.
  induction l as [|x l IH]; simpl; [done|].
  destruct (f x) eqn:Hx; simpl.
  - rewrite IH. split; [now intros ->|now intros [= ->]].
  - split; [discriminate|]. intros Heq.
    assert (Hin : In x (List.filter f l)) by (rewrite Heq; now left).
    apply filter_In in Hin as [_ Hfx]. congruence.
Qed.

Lemma filter_none {A} (f : A -> bool) (l : list A) :
  forallb f l = true <-> List.filter (fun x => negb (f x)) l = [].
Proof.
  induction l as [|x l IH]; simpl; [done|].
  destruct (f x); simpl; [exact IH|]. split; discriminate.
Qed.

(** X8: [isValid()] holds exactly when [pickInvalid()] is empty, and
    exactly when [pickValid()] is the whole batch. *)
Theorem isValid_iff_picks (this : StdoutReporter.t) :
  (StdoutReporter.isValid this = true
   <-> StdoutReporter.pickInvalid this = [])
  /\ (StdoutReporter.isValid this = true
      <-> StdoutReporter.pickValid this = StdoutReporter.result this).
Proof.
  split.
  - apply (filter_none isValid).
  - apply (filter_all isValid).
Qed.

Lemma filter_filter_same {A} (f : A -> bool) (l : list A) :
  List.filter f (List.filter f l) = List.filter f l.
Proof.
  induction l as [|x l IH]; simpl; [reflexivity|].
  destruct (f x) eqn:Hx; simpl; [rewrite Hx|]; now rewrite ?IH.
Qed.

Lemma filter_filter_negb {A} (f : A -> bool) (l : list A) :
  List.filter (fun x => negb (f x)) (List.filter f l) = [].
Proof.
  induction l as [|x l IH]; simpl; [reflexivity|].
  destruct (f x) eqn:Hx; simpl; [rewrite Hx|]; exact IH.
Qed.

(** X9: a reporter built from the valid results of another one is valid,
    picks all of its batch as valid and nothing as invalid; one built from
    the invalid results picks nothing as valid. *)
Theorem reporter_of_picks (this : StdoutReporter.t) :
  let valid := StdoutReporter.new (StdoutReporter.pickValid this) in
  let invalid := StdoutReporter.new (StdoutReporter.pickInvalid this) in
  StdoutReporter.isValid valid = true
  /\ StdoutReporter.pickValid valid = StdoutReporter.pickValid this
  /\ StdoutReporter.pickInvalid valid = []
  /\ StdoutReporter.pickValid invalid = []
  /\ StdoutReporter.pickInvalid invalid = StdoutReporter.pickInvalid this.
Proof.
  destruct this as [batch]. simpl.
  unfold StdoutReporter.isValid, StdoutReporter.pickValid,
    StdoutReporter.pickInvalid. simpl.
  repeat apply conj.
  - apply filter_all, filter_filter_same.
  - apply filter_filter_same.
  - apply filter_filter_negb.
  - induction batch as [|x l IH]; simpl; [reflexivity|].
    destruct (isValid x) eqn:Hx; simpl; [|rewrite Hx]; exact IH.
  - apply (filter_filter_same (fun res => negb (isValid res))).
Qed.

(** X10: a reporter over the results of [syncValidate] is valid exactly
    when every validator accepts the value, and picks as invalid as many
    results as there are validators that reject it. *)
Theorem syncValidate_reported (value : JsValue)
    (validators : list SyncValidator) :
  let reporter := StdoutReporter.new (syncValidate value validators) in
  (StdoutReporter.isValid reporter = true
   <-> forall validator : SyncValidator,
         validator ∈ validators -> isValid (validator value) = true)
  /\ length (StdoutReporter.pickInvalid reporter)
     = length (List.filter
                 (fun validator : SyncValidator =>
                    negb (isValid (validator value))) validators).
Proof.
  simpl. unfold StdoutReporter.isValid, StdoutReporter.pickInvalid,
    syncValidate. simpl. split.
  - rewrite forallb_forall. split.
    + intros Hall validator Hin. apply Hall, in_map_iff.
      exists validator. split; [reflexivity|now apply list_elem_of_In].
    + intros Hall res Hin. apply in_map_iff in Hin as (validator & <- & Hin).
      now apply Hall, list_elem_of_In.
  - induction validators as [|validator validators IH]; simpl; [reflexivity|].
    destruct (isValid (validator value)); simpl; now rewrite IH.
Qed.

(** A decimal numeral holds no closing bracket, so it ends where the
    first one stands. *)
Lemma string_of_uint_bracket (d d' : Decimal.uint) (rest rest' : string) :
  NilEmpty.string_of_uint d +:+ "]" +:+ rest
  = NilEmpty.string_of_uint d' +:+ "]" +:+ rest' ->
  d = d' /\ rest = rest'.
Proof.
  revert d'. induction d as [|d IH|d IH|d IH|d IH|d IH|d IH|d IH|d IH|d IH|d IH];
    intros [|d'|d'|d'|d'|d'|d'|d'|d'|d'|d']; simpl; intros Heq;
    try discriminate Heq.
  1: { injection Heq as Heq. change (rest = rest') in Heq. now split. }
  all: injection Heq as Heq; apply IH in Heq as [-> ->]; now split.
Qed.

Lemma index_toString_bracket (i j : nat) (rest rest' : string) :
  index_toString i +:+ "]" +:+ rest = index_toString j +:+ "]" +:+ rest' ->
  i = j /\ rest = rest'.
Proof.
  unfold index_toString. intros Heq.
  apply string_of_uint_bracket in Heq as [Heq ->]. split; [|reflexivity].
  rewrite <- (DecimalNat.Unsigned.of_to i), <- (DecimalNat.Unsigned.of_to j).
  now rewrite Heq.
Qed.

Lemma reportLine_inj (i j : nat) (res res' : ValidationResult) :
  reportLine i res = reportLine j res' ->
  i = j /\ isValid res = isValid res'
  /\ nullable_toString (message res) = nullable_toString (message res').
Proof.
  unfold reportLine. simpl. intros Heq. injection Heq as Heq.
  apply index_toString_bracket in Heq as [-> Heq]. split; [reflexivity|].
  fold (nullable_toString (message res)) in Heq.
  fold (nullable_toString (message res')) in Heq.
  destruct (isValid res), (isValid res'); simpl in Heq;
    try discriminate Heq; injection Heq as Heq; now split.
Qed.

(** X11: when no message holds a line terminator, a line of a report
    tells the position of the result it stands for, whether that result
    is valid, and its message as printed: two such reports have the same
    line only at the same position, for results of the same validity and
    of the same printed message. *)
Theorem report_line_unambiguous (this this' : StdoutReporter.t) (i j : nat)
    (line : string) :
  Forall (fun res => has_line_break (nullable_toString (message res)) = false)
    (StdoutReporter.result this) ->
  Forall (fun res => has_line_break (nullable_toString (message res)) = false)
    (StdoutReporter.result this') ->
  lines (StdoutReporter.report this "") !! i = Some line ->
  lines (StdoutReporter.report this' "") !! j = Some line ->
  i = j
  /\ exists res res',
       StdoutReporter.result this !! i = Some res
       /\ StdoutReporter.result this' !! j = Some res'
       /\ isValid res = isValid res'
       /\ nullable_toString (message res) = nullable_toString (message res').
Proof.
  intros Hclean Hclean'.
  rewrite (report_lines this Hclean), (report_lines this' Hclean').
  rewrite !list_lookup_imap.
  destruct (StdoutReporter.result this !! i) as [res|] eqn:Hi;
    [|discriminate].
  destruct (StdoutReporter.result this' !! j) as [res'|] eqn:Hj;
    [|discriminate].
  simpl. intros Hline Hline'.
  assert (Heq : reportLine i res = reportLine j res') by congruence.
  apply reportLine_inj in Heq as (-> & Hvalid & Hmessage).
  split; [reflexivity|]. exists res, res'. now repeat split.
Qed.

(** A result without a message and one whose message is "null" are
    printed alike. *)
Example report_null_message (index : nat) :
  reportLine index {| isValid := false; message := None |}
  = reportLine index {| isValid := false; message := Some "null" |}.
Proof. reflexivity. Qed.

(** ** The asynchronous runner, continued *)

Section RunnerMore.

Context {host : Host}.

(** The promises that [asyncValidate] waits for are those the validators
    return. *)
Lemma elem_of_promises (value : option float)
    (validators : list AsyncValidator)
    (promises : list (Promise ValidationResult))
    (p : Promise ValidationResult) :
  Array_map (fun validator : AsyncValidator => validator value) validators
  = Returns promises ->
  p ∈ promises
  <-> exists validator : AsyncValidator,
        validator ∈ validators /\ validator value = Returns p.
Proof.
  intros Hmap. apply Array_map_returns in Hmap. split.
  - intros Hin. apply list_elem_of_lookup in Hin as [i Hi].
    destruct (Forall2_lookup_r _ _ _ _ _ Hmap Hi) as (validator & Hv & Hcall).
    exists validator. split; [|exact Hcall].
    eapply list_elem_of_lookup_2, Hv.
  - intros (validator & Hin & Hcall).
    apply list_elem_of_lookup in Hin as [i Hi].
    destruct (Forall2_lookup_l _ _ _ _ _ Hmap Hi) as (q & Hq & Hcall').
    rewrite Hcall in Hcall'. injection Hcall' as ->.
    eapply list_elem_of_lookup_2, Hq.
Qed.

Lemma validators_return (value : option float)
    (validators : list AsyncValidator)
    (promises : list (Promise ValidationResult)) :
  Array_map (fun validator : AsyncValidator => validator value) validators
  = Returns promises ->
  forall validator : AsyncValidator, validator ∈ validators ->
    exists p, validator value = Returns p.
Proof.
  intros Hmap validator Hin. apply Array_map_returns in Hmap.
  apply list_elem_of_lookup in Hin as [i Hi].
  destruct (Forall2_lookup_l _ _ _ _ _ Hmap Hi) as (p & _ & Hcall). eauto.
Qed.

Lemma validators_return_inv (value : option float)
    (validators : list AsyncValidator) :
  (forall validator : AsyncValidator, validator ∈ validators ->
     exists p, validator value = Returns p) ->
  exists promises,
    Array_map (fun validator : AsyncValidator => validator value) validators
    = Returns promises.
Proof.
  intros Hall.
  destruct (Array_map _ validators) as [promises|e] eqn:Hmap; [eauto|].
  apply Array_map_throws in Hmap
    as (before & validator & after & -> & _ & Hthrow).
  destruct (Hall validator) as [p Hp]; [|congruence].
  apply elem_of_app. right. left.
Qed.

(** X15: when [asyncValidate] rejects, either a validator threw that
    exception while the validators were called, and the rejection is
    immediate, or every validator returned a promise and the rejection
    has the instant and the reason of a promise that rejects, none of
    them rejecting before that instant. *)
Theorem asyncValidate_first_rejection (value : option float)
    (validators : list AsyncValidator) (u : Instant) (e : JsValue) :
  asyncValidate value validators = Settles u (Rejected e) ->
  (u = 0
   /\ exists validator : AsyncValidator,
        validator ∈ validators /\ validator value = Throws e)
  \/ ((forall validator : AsyncValidator, validator ∈ validators ->
         exists p, validator value = Returns p)
      /\ (exists validator : AsyncValidator,
             validator ∈ validators
             /\ validator value = Returns (Settles u (Rejected e)))
      /\ forall (validator : AsyncValidator) t e',
           validator ∈ validators ->
           validator value = Returns (Settles t (Rejected e')) -> u <= t).
Proof.
  unfold asyncValidate.
  destruct (Array_map _ validators) as [promises|e'] eqn:Hmap.
  - intros Hrej. right.
    apply Promise_all_from_rejected_inv in Hrej as [Hin Hfirst].
    split; [exact (validators_return _ _ _ Hmap)|]. split.
    + now apply (elem_of_promises _ _ _ _ Hmap) in Hin.
    + intros validator t e' Hv Hcall. apply (Hfirst t e').
      apply (elem_of_promises _ _ _ _ Hmap). eauto.
  - intros [= <- <-]. left. split; [reflexivity|].
    apply Array_map_throws in Hmap
      as (before & validator & after & -> & _ & Hthrow).
    exists validator. split; [|exact Hthrow].
    apply elem_of_app. right. left.
Qed.

(** X16: [asyncValidate] waits for all validators: when it resolves,
    every validator has resolved by then and, unless there is none, one
    of them resolves at that very instant. *)
Theorem asyncValidate_waits_for_all (value : option float)
    (validators : list AsyncValidator) (t : Instant)
    (results : list ValidationResult) :
  asyncValidate value validators = Settles t (Fulfilled results) ->
  (forall validator : AsyncValidator, validator ∈ validators ->
     exists u res,
       validator value = Returns (Settles u (Fulfilled res)) /\ u <= t)
  /\ (validators = []
      \/ exists (validator : AsyncValidator) res,
           validator ∈ validators
           /\ validator value = Returns (Settles t (Fulfilled res))).
Proof.
  unfold asyncValidate.
  destruct (Array_map _ validators) as [promises|e'] eqn:Hmap; [|discriminate].
  intros Hres.
  apply Promise_all_from_fulfilled_inv in Hres as [Hall Hlast]. split.
  - intros validator Hin.
    destruct (validators_return _ _ _ Hmap validator Hin) as [p Hcall].
    assert (Hp : p ∈ promises)
      by (apply (elem_of_promises _ _ _ _ Hmap); eauto).
    apply list_elem_of_lookup in Hp as [i Hi].
    destruct (Forall2_lookup_l _ _ _ _ _ Hall Hi)
      as (res & _ & u & -> & Hle).
    eauto.
  - destruct Hlast as [->|[res Hin]].
    + left. apply Array_map_returns in Hmap. now inversion Hmap.
    + right. apply (elem_of_promises _ _ _ _ Hmap) in Hin
        as (validator & Hin & Hcall).
      eauto.
Qed.

(** X17: [asyncValidate] never settles exactly when every validator
    returns a promise, one of these promises never settles and none of
    them rejects. *)
Theorem asyncValidate_pending_iff (value : option float)
    (validators : list AsyncValidator) :
  asyncValidate value validators = Pending
  <-> (forall validator : AsyncValidator, validator ∈ validators ->
         exists p, validator value = Returns p)
      /\ (exists validator : AsyncValidator,
             validator ∈ validators /\ validator value = Returns Pending)
      /\ forall (validator : AsyncValidator) t e,
           validator ∈ validators ->
           validator value <> Returns (Settles t (Rejected e)).
Proof.
  unfold asyncValidate. split.
  - destruct (Array_map _ validators) as [promises|e'] eqn:Hmap;
      [|discriminate].
    intros Hpending. apply Promise_all_from_pending in Hpending
      as [Hin Hnone].
    split; [exact (validators_return _ _ _ Hmap)|]. split.
    + now apply (elem_of_promises _ _ _ _ Hmap) in Hin.
    + intros validator t e Hv Hcall. apply (Hnone t e).
      apply (elem_of_promises _ _ _ _ Hmap). eauto.
  - intros (Hreturn & Hpending & Hnone).
    destruct (validators_return_inv _ _ Hreturn) as [promises Hmap].
    rewrite Hmap. apply Promise_all_from_pending. split.
    + apply (elem_of_promises _ _ _ _ Hmap). exact Hpending.
    + intros t e Hin.
      apply (elem_of_promises _ _ _ _ Hmap) in Hin
        as (validator & Hin & Hcall).
      exact (Hnone validator t e Hin Hcall).
Qed.

(** X22: a validator that throws when it is called, after validators
    that return, makes [asyncValidate] reject at once with the
    exception, whatever the validators after it would do. *)
Theorem asyncValidate_validator_throws (value : option float)
    (before after : list AsyncValidator) (validator : AsyncValidator)
    (e : JsValue) :
  Forall (fun earlier : AsyncValidator =>
            exists p, earlier value = Returns p) before ->
  validator value = Throws e ->
  asyncValidate value (before ++ validator :: after)
  = Settles 0 (Rejected e).
Proof.
  intros Hbefore Hthrow. unfold asyncValidate.
  assert (Hmap : Array_map (fun validator : AsyncValidator => validator value)
                   (before ++ validator :: after) = Throws e).
  { apply Array_map_throws. exists before, validator, after. now repeat split. }
  now rewrite Hmap.
Qed.

End RunnerMore.

(** ** The asynchronous check, continued *)

Section AsyncCheckMore.

Context {host : Host}.

(** X18: the predicate stays pending exactly when the promise of the
    callback stays pending and no timer fires: no timeout is given, or
    the released timer never fires. *)
Theorem checkAsync_pending_iff (args : CheckAsyncArgumentsType)
    (value : option float) :
  checkAsync args value = Pending
  <-> callback args (Number value) = Returns Pending
      /\ (timeout args = None
          \/ exists delay,
               timeout args = Some delay /\ setTimeout_fires delay = None).
Proof.
  rewrite checkAsync_unfold. unfold try_await, timeoutPromise.
  destruct (callback args (Number value)) as [[|t [[]|e]]|e],
           (timeout args) as [delay|]; simpl;
    try destruct (setTimeout_fires delay) as [fires|] eqn:Hfires; simpl;
    try destruct (settled_before 0 t fires);
    split; try discriminate;
    try (intros [? ?]; discriminate);
    try (intros [_ [?|(? & ? & ?)]]; congruence);
    eauto.
Qed.

(** X14: the predicate never rejects: whatever the callback and the
    timeout do, when its promise settles it is fulfilled with a
    validation result. *)
Theorem checkAsync_settles_fulfilled (args : CheckAsyncArgumentsType)
    (value : option float) (t : Instant) (o : Outcome ValidationResult) :
  checkAsync args value = Settles t o ->
  exists res : ValidationResult, o = Fulfilled res.
Proof.
  intros Hsettles. destruct o as [res|e]; [now exists res|].
  now apply checkAsync_never_rejects in Hsettles.
Qed.

(** X19: when the callback resolves before the timer, if any, fires, the
    predicate resolves at that instant to the valid result. *)
Theorem checkAsync_resolves_first (args : CheckAsyncArgumentsType)
    (value : option float) (t : Instant) :
  callback args (Number value) = Returns (Settles t (Fulfilled tt)) ->
  (forall delay fires,
      timeout args = Some delay -> setTimeout_fires delay = Some fires ->
      t < fires) ->
  checkAsync args value
  = Settles t (Fulfilled {| isValid := true; message := None |}).
Proof.
  intros Hcall Hfirst. now apply checkAsync_callback_resolves.
Qed.

(** X20: with a timeout whose timer fires, the predicate resolves, no
    later than the timer fires, and its [finally] clause clears the timer
    at the instant it resolves. *)
Theorem checkAsync_deadline (args : CheckAsyncArgumentsType)
    (value : option float) (delay : float) (fires : Instant) :
  timeout args = Some delay ->
  setTimeout_fires delay = Some fires ->
  exists (t : Instant) (res : ValidationResult),
    checkAsync args value = Settles t (Fulfilled res)
    /\ t <= fires
    /\ snd (checkAsync_run args value) = Some t.
Proof.
  intros Hdelay Hfires.
  pose proof (checkAsync_timer_cleared args value) as Hrun.
  rewrite Hdelay in Hrun. destruct (Hrun fires Hfires) as (t & res & Heq & Hle).
  exists t, res. unfold checkAsync. now rewrite Heq.
Qed.

(** The validators that [checkAsync] builds are async functions. *)
Lemma Array_map_checkAsync (value : option float)
    (argss : list CheckAsyncArgumentsType) :
  Array_map (fun validator : AsyncValidator => validator value)
    (List.map (fun args => async_call (checkAsync args)) argss)
  = Returns (List.map (fun args => checkAsync args value) argss).
Proof.
  induction argss as [|args argss IH]; simpl; [reflexivity|].
  now rewrite IH.
Qed.

(** X21: over validators built by [checkAsync], [asyncValidate] never
    rejects; when each of them has a timeout whose timer fires, it
    resolves, with one result per validator. *)
Theorem asyncValidate_of_checkAsync (value : option float)
    (argss : list CheckAsyncArgumentsType) :
  (forall t e,
      asyncValidate value
        (List.map (fun args => async_call (checkAsync args)) argss)
      <> Settles t (Rejected e))
  /\ (Forall (fun args =>
                exists delay fires,
                  timeout args = Some delay
                  /\ setTimeout_fires delay = Some fires) argss ->
      exists (t : Instant) (results : list ValidationResult),
        asyncValidate value
          (List.map (fun args => async_call (checkAsync args)) argss)
        = Settles t (Fulfilled results)
        /\ length results = length argss).
Proof.
  unfold asyncValidate. rewrite Array_map_checkAsync. split.
  - intros t e Hrej. apply Promise_all_from_rejected_inv in Hrej as [Hin _].
    change (List.map ?f argss) with (f <$> argss) in Hin.
    apply list_elem_of_fmap in Hin as (args & Heq & _).
    symmetry in Heq. exact (checkAsync_never_rejects args value t e Heq).
  - intros Htimeouts.
    destruct (Promise_all_from_fulfilled 0
                (List.map (fun args => checkAsync args value) argss))
      as (t & results & Heq & Hres).
    + change (List.map ?f ?l) with (f <$> l). rewrite Forall_fmap.
      eapply Forall_impl; [exact Htimeouts|].
      intros args (delay & fires & Hdelay & Hfires). simpl.
      pose proof (checkAsync_timer_cleared args value) as Hrun.
      rewrite Hdelay in Hrun.
      destruct (Hrun fires Hfires) as (u & res & Hrun' & _).
      unfold checkAsync. rewrite Hrun'. now exists res.
    + exists t, results. split; [exact Heq|].
      apply Forall2_length in Hres. rewrite <- Hres.
      now rewrite length_map.
Qed.

End AsyncCheckMore.

Example checkAsync_same_millisecond :
  checkAsync (H := Node.host)
    {| callback := Node.resolvesAfter 10; timeout := Some 10%float |}
    (Some 5%float)
  = Settles 10 (Fulfilled {| isValid := false; message := Some "Timeout" |}).
Proof. vm_compute. reflexivity. Qed.

Example checkAsync_idle_process :
  checkAsync (H := Node.idle)
    {| callback := fun _ => Returns Pending; timeout := Some 10%float |}
    (Some 5%float)
  = Pending.
Proof. reflexivity. Qed.

(** ** Instances of the further properties *)

Lemma checkStringLength_whole_bounds_witness :
  (Z.of_nat 2 < 2 ^ 53)%Z /\ (Z.of_nat 5 < 2 ^ 53)%Z
  /\ (Z.of_nat (String.length "abcdef") < 2 ^ 53)%Z
  /\ isValid (checkStringLength (H := Node.host)
                (number_of_nat 2) (number_of_nat 5) (VString "abcdef"))
     = false.
Proof.
  assert (Hlo : (Z.of_nat 2 < 2 ^ 53)%Z) by reflexivity.
  assert (Hhi : (Z.of_nat 5 < 2 ^ 53)%Z) by reflexivity.
  assert (Hlen : (Z.of_nat (String.length "abcdef") < 2 ^ 53)%Z)
    by reflexivity.
  split; [exact Hlo|]. split; [exact Hhi|]. split; [exact Hlen|].
  exact (checkStringLength_whole_bounds (host := Node.host)
           2 5 "abcdef" Hlo Hhi Hlen).
Defined.

Lemma checkNumberValue_whole_numbers_witness :
  (Z.of_nat 1 < 2 ^ 53)%Z /\ (Z.of_nat 10 < 2 ^ 53)%Z
  /\ (Z.of_nat 7 < 2 ^ 53)%Z
  /\ isValid (checkNumberValue (H := Node.host)
                (number_of_nat 1) (number_of_nat 10)
                (VNumber (number_of_nat 7)))
     = true.
Proof.
  assert (Hlo : (Z.of_nat 1 < 2 ^ 53)%Z) by reflexivity.
  assert (Hhi : (Z.of_nat 10 < 2 ^ 53)%Z) by reflexivity.
  assert (Hn : (Z.of_nat 7 < 2 ^ 53)%Z) by reflexivity.
  split; [exact Hlo|]. split; [exact Hhi|]. split; [exact Hn|].
  exact (checkNumberValue_whole_numbers (host := Node.host)
           1 10 7 Hlo Hhi Hn).
Defined.

Lemma empty_range_rejects_witness :
  PrimFloat.leb 10 1 = false
  /\ isValid (checkNumberValue (H := Node.host) 10 1 (VNumber 5)) = false
  /\ isValid (checkStringLength (H := Node.host) 10 1 (VNumber 5)) = false.
Proof.
  assert (Hempty : PrimFloat.leb 10 1 = false) by reflexivity.
  split; [exact Hempty|].
  exact (empty_range_rejects (host := Node.host) 10 1 (VNumber 5) Hempty).
Defined.

Lemma checkNumberValue_bounds_valid_witness :
  PrimFloat.leb 1 10 = true
  /\ checkNumberValue (H := Node.host) 1 10 (VNumber 1)
     = {| isValid := true; message := None |}
  /\ checkNumberValue (H := Node.host) 1 10 (VNumber 10)
     = {| isValid := true; message := None |}.
Proof.
  assert (Hle : PrimFloat.leb 1 10 = true) by reflexivity.
  split; [exact Hle|].
  exact (checkNumberValue_bounds_valid (host := Node.host) 1 10 Hle).
Defined.

Lemma report_spec_witness :
  Forall (fun res => has_line_break (nullable_toString (message res)) = false)
    [ {| isValid := true; message := None |};
      {| isValid := false; message := Some "bad" |} ]
  /\ length (lines (StdoutReporter.report
                      (StdoutReporter.new
                         [ {| isValid := true; message := None |};
                           {| isValid := false; message := Some "bad" |} ])
                      "")) = 2
  /\ lines (StdoutReporter.report
              (StdoutReporter.new
                 [ {| isValid := true; message := None |};
                   {| isValid := false; message := Some "bad" |} ]) "") !! 1
     = Some "[#1][ invalid ] | bad".
Proof.
  assert (Hclean : Forall (fun res =>
                     has_line_break (nullable_toString (message res)) = false)
                     [ {| isValid := true; message := None |};
                       {| isValid := false; message := Some "bad" |} ])
    by (repeat constructor).
  split; [exact Hclean|].
  destruct (proj2 (report_spec
                     (StdoutReporter.new
                        [ {| isValid := true; message := None |};
                          {| isValid := false; message := Some "bad" |} ])
                     "") Hclean) as [Hlength Hline].
  split; [exact Hlength|exact (Hline 1)].
Defined.

Lemma report_line_unambiguous_witness :
  lines (StdoutReporter.report
           (StdoutReporter.new
              [ {| isValid := true; message := None |};
                {| isValid := false; message := Some "bad" |} ]) "")
    !! 1 = Some "[#1][ invalid ] | bad"
  /\ lines (StdoutReporter.report
              (StdoutReporter.new
                 [ {| isValid := false; message := Some "worse" |};
                   {| isValid := false; message := Some "bad" |} ]) "")
       !! 1 = Some "[#1][ invalid ] | bad"
  /\ 1 = 1.
Proof.
  split; [reflexivity|]. split; [reflexivity|].
  apply (report_line_unambiguous
           (StdoutReporter.new
              [ {| isValid := true; message := None |};
                {| isValid := false; message := Some "bad" |} ])
           (StdoutReporter.new
              [ {| isValid := false; message := Some "worse" |};
                {| isValid := false; message := Some "bad" |} ])
           1 1 "[#1][ invalid ] | bad").
  - repeat constructor.
  - repeat constructor.
  - reflexivity.
  - reflexivity.
Defined.

Lemma asyncValidate_rejects_witness :
  exists (u : Instant) (e' : JsValue),
    asyncValidate (H := Node.host) (Some 5%float)
      [ (fun _ => Returns (Settles 20
                    (Fulfilled {| isValid := true; message := None |})));
        (fun _ => Returns (Settles 10 (Rejected (VString "broken")))) ]
    = Settles u (Rejected e')
    /\ u <= 10.
Proof.
  apply (asyncValidate_rejects (host := Node.host) (Some 5%float)
           [ (fun _ => Returns (Settles 20
                         (Fulfilled {| isValid := true; message := None |})));
             (fun _ => Returns (Settles 10 (Rejected (VString "broken")))) ]
           (fun _ => Returns (Settles 10 (Rejected (VString "broken"))))
           10 (VString "broken")).
  - right. left.
  - reflexivity.
Defined.

Lemma checkAsync_callback_throws_witness :
  checkAsync (H := Node.host)
    {| callback := fun _ => Throws (VError "not now");
       timeout := Some 1000%float |}
    (Some 5%float)
  = Settles 0
      (Fulfilled {| isValid := false; message := Some "not now" |}).
Proof.
  exact (checkAsync_callback_throws (host := Node.host)
           {| callback := fun _ => Throws (VError "not now");
              timeout := Some 1000%float |}
           (Some 5%float) (VError "not now") eq_refl).
Defined.

Lemma checkAsync_settles_fulfilled_witness :
  exists res : ValidationResult,
    Fulfilled {| isValid := false; message := Some "Timeout" |}
    = Fulfilled res.
Proof.
  apply (checkAsync_settles_fulfilled (host := Node.host)
           {| callback := Node.rejectsAfter 1000 (VError "late");
              timeout := Some 10%float |}
           (Some 5%float) 10).
  vm_compute. reflexivity.
Defined.

Lemma asyncValidate_first_rejection_witness :
  asyncValidate (H := Node.host) (Some 5%float)
    [ (fun _ => Returns (Settles 20 (Rejected (VString "slow"))));
      (fun _ => Returns (Settles 10 (Rejected (VString "fast")))) ]
  = Settles 10 (Rejected (VString "fast"))
  /\ ((10 = 0
       /\ exists validator : AsyncValidator,
            validator ∈ [ (fun _ => Returns (Settles 20
                                      (Rejected (VString "slow"))));
                          (fun _ => Returns (Settles 10
                                      (Rejected (VString "fast")))) ]
            /\ validator (Some 5%float) = Throws (VString "fast"))
      \/ ((forall validator : AsyncValidator,
              validator ∈ [ (fun _ => Returns (Settles 20
                                        (Rejected (VString "slow"))));
                            (fun _ => Returns (Settles 10
                                        (Rejected (VString "fast")))) ] ->
              exists p, validator (Some 5%float) = Returns p)
          /\ (exists validator : AsyncValidator,
                 validator ∈ [ (fun _ => Returns (Settles 20
                                           (Rejected (VString "slow"))));
                               (fun _ => Returns (Settles 10
                                           (Rejected (VString "fast")))) ]
                 /\ validator (Some 5%float)
                    = Returns (Settles 10 (Rejected (VString "fast"))))
          /\ forall (validator : AsyncValidator) t e',
               validator ∈ [ (fun _ => Returns (Settles 20
                                         (Rejected (VString "slow"))));
                             (fun _ => Returns (Settles 10
                                         (Rejected (VString "fast")))) ] ->
               validator (Some 5%float) = Returns (Settles t (Rejected e')) ->
               10 <= t)).
Proof.
  assert (Hrej : asyncValidate (H := Node.host) (Some 5%float)
                   [ (fun _ => Returns (Settles 20 (Rejected (VString "slow"))));
                     (fun _ => Returns (Settles 10 (Rejected (VString "fast")))) ]
                 = Settles 10 (Rejected (VString "fast")))
    by reflexivity.
  split; [exact Hrej|].
  exact (asyncValidate_first_rejection (host := Node.host) (Some 5%float)
           [ (fun _ => Returns (Settles 20 (Rejected (VString "slow"))));
             (fun _ => Returns (Settles 10 (Rejected (VString "fast")))) ]
           10 (VString "fast") Hrej).
Defined.

Lemma asyncValidate_waits_for_all_witness :
  asyncValidate (H := Node.host) (Some 5%float)
    [ (fun _ => Returns (Settles 20
                  (Fulfilled {| isValid := true; message := None |})));
      (fun _ => Returns (Settles 10
                  (Fulfilled {| isValid := false; message := Some "bad" |}))) ]
  = Settles 20
      (Fulfilled [ {| isValid := true; message := None |};
                   {| isValid := false; message := Some "bad" |} ])
  /\ exists u res,
       Returns (Settles 10
                  (Fulfilled {| isValid := false; message := Some "bad" |}))
       = Returns (Settles u (Fulfilled res)) /\ u <= 20.
Proof.
  split; [reflexivity|].
  apply (proj1 (asyncValidate_waits_for_all (host := Node.host)
                  (Some 5%float)
                  [ (fun _ => Returns (Settles 20
                       (Fulfilled {| isValid := true; message := None |})));
                    (fun _ => Returns (Settles 10
                       (Fulfilled {| isValid := false;
                                     message := Some "bad" |}))) ]
                  20
                  [ {| isValid := true; message := None |};
                    {| isValid := false; message := Some "bad" |} ]
                  eq_refl)
               (fun _ => Returns (Settles 10
                  (Fulfilled {| isValid := false; message := Some "bad" |})))).
  right. left.
Defined.

Lemma asyncValidate_validator_throws_witness :
  Forall (fun earlier : AsyncValidator =>
            exists p, earlier (Some 5%float) = Returns p)
    [ (fun _ => Returns Pending) : AsyncValidator ]
  /\ asyncValidate (H := Node.host) (Some 5%float)
       [ (fun _ => Returns Pending);
         (fun _ => Throws (VError "not a function"));
         (fun _ => Returns (Settles 1
                     (Fulfilled {| isValid := true; message := None |}))) ]
     = Settles 0 (Rejected (VError "not a function")).
Proof.
  assert (Hbefore : Forall (fun earlier : AsyncValidator =>
                              exists p, earlier (Some 5%float) = Returns p)
                      [ (fun _ => Returns Pending) : AsyncValidator ])
    by (repeat constructor; eexists; reflexivity).
  split; [exact Hbefore|].
  exact (asyncValidate_validator_throws (host := Node.host) (Some 5%float)
           [ (fun _ => Returns Pending) : AsyncValidator ]
           [ (fun _ => Returns (Settles 1
                (Fulfilled {| isValid := true; message := None |}))) ]
           (fun _ => Throws (VError "not a function"))
           (VError "not a function") Hbefore eq_refl).
Defined.

Lemma checkAsync_resolves_first_witness :
  10 < Node.setTimeout_fires 1000
  /\ checkAsync (H := Node.host)
       {| callback := Node.resolvesAfter 10; timeout := Some 1000%float |}
       (Some 5%float)
     = Settles 10 (Fulfilled {| isValid := true; message := None |}).
Proof.
  assert (Hbefore : 10 < Node.setTimeout_fires 1000) by (vm_compute; lia).
  split; [exact Hbefore|].
  apply (checkAsync_resolves_first (host := Node.host)
           {| callback := Node.resolvesAfter 10; timeout := Some 1000%float |}
           (Some 5%float) 10).
  - reflexivity.
  - intros delay fires [= <-] [= <-]. exact Hbefore.
Defined.

Lemma checkAsync_deadline_witness :
  exists (t : Instant) (res : ValidationResult),
    checkAsync (H := Node.host)
      {| callback := Node.resolvesAfter 1000; timeout := Some 10%float |}
      None
    = Settles t (Fulfilled res)
    /\ t <= Node.setTimeout_fires 10
    /\ snd (checkAsync_run (H := Node.host)
              {| callback := Node.resolvesAfter 1000;
                 timeout := Some 10%float |}
              None)
       = Some t.
Proof.
  exact (checkAsync_deadline (host := Node.host)
           {| callback := Node.resolvesAfter 1000; timeout := Some 10%float |}
           None 10%float (Node.setTimeout_fires 10) eq_refl eq_refl).
Defined.
